(** * A shallow embedding of the evm-golang interpreter (main.go)

    The Go program keeps one [EVM] struct per call frame.  A frame owns its
    stack, memory, program counter and gas; it points to its [Contract] and
    shares the [contracts] registry with every nested frame.  Contracts are
    reached through pointers, so the embedding keeps them in a [heap] indexed
    by location and threads the heap and the registry through every call.

    Conventions:
    - [uint64] values are integers in [Z]; every operation that can leave the
      range is followed by [uint64], the reduction modulo 2^64;
    - [*big.Int] values are unbounded integers in [Z];
    - a Go [error] is a constructor of [Error]; a run-time panic (slice or
      index out of range, nil dereference) is the outcome [Panic];
    - handlers mutate the frame and then return an error or nil, so they are
      functions from a machine to an outcome paired with the machine as the
      handler left it. *)

From Stdlib Require Import ZArith Lia.
From Stdlib Require Import Strings.Byte.
From stdpp Require Import base numbers list strings gmap pretty.

Local Open Scope Z_scope.

(** ** Constants and machine integers *)

Definition MaxStackDepth : Z := 1024.
Definition MaxMemorySize : Z := Z.shiftl 1 25. (* 32 MB *)

(** Reduction of an integer to the range of Go's [uint64]. *)
Definition uint64 (z : Z) : Z := z mod 2 ^ 64.

(** [len(l)] as an integer. *)
Definition len {A} (l : list A) : Z := Z.of_nat (length l).

#[global] Instance byte_eq_dec : EqDecision byte.
Proof.
  intros a b. destruct (decide (Byte.to_N a = Byte.to_N b)) as [H|H].
  - left. apply (f_equal Byte.of_N) in H. rewrite !Byte.of_to_N in H. congruence.
  - right. congruence.
Defined.

#[global] Instance byte_countable : Countable byte :=
  inj_countable Byte.to_N Byte.of_N Byte.of_to_N.

Definition byte_of_N (n : N) : byte :=
  match Byte.of_N n with Some b => b | None => x00 end.

(** ** Errors and outcomes *)

(** The errors built by [fmt.Errorf] in main.go, one constructor per message. *)
Inductive Error : Type :=
| StackOverflow        (* "stack overflow" *)
| StackUnderflow       (* "stack underflow" *)
| MemoryLimitExceeded  (* "memory size exceeded" *)
| MemoryOutOfBounds    (* "memory access out of bounds" *)
| STOP                 (* "STOP" *)
| UnknownOpcode (opcode : byte) (* "unknown opcode: 0x%x" *)
| OutOfGas             (* "out of gas" *)
| PushOutOfBounds      (* "push: out of bounds" *)
| DupUnderflow         (* "dup: stack underflow" *)
| SwapUnderflow        (* "swap: stack underflow" *)
| ContractNotFound     (* "contract not found" *)
| RevertWithData.      (* "revert with data" *)

(** What a Go call can end in: a value, an [error], a run-time panic, or, in
    the embedding only, the exhaustion of the recursion budget. *)
Inductive result (A : Type) : Type :=
| Ok (a : A)
| Err (e : Error)
| Panic
| OutOfFuel.
Arguments Ok {A} a.
Arguments Err {A} e.
Arguments Panic {A}.
Arguments OutOfFuel {A}.

(** Go's [s[lo:hi]] on a slice whose capacity equals its length. *)
Definition slice {A} (l : list A) (lo hi : Z) : result (list A) :=
  if (lo <=? hi) && (hi <=? len l)
  then Ok (take (Z.to_nat (hi - lo)) (drop (Z.to_nat lo) l))
  else Panic.

(** Go's builtin [copy(dst, src)]: the first [min(len dst, len src)] elements
    of [dst] are overwritten; the result is the new content of [dst]. *)
Definition copy {A} (dst src : list A) : list A :=
  take (length dst) src ++ drop (length src) dst.

(** ** math/big operations used by the interpreter *)

Module BigInt.

(** [x.Uint64()]: the low 64 bits of the magnitude of [x]. *)
Definition Uint64 (x : Z) : Z := Z.abs x mod 2 ^ 64.

(** [new(big.Int).SetBytes(buf)]: [buf] read as a big-endian unsigned integer. *)
Definition SetBytes (buf : list byte) : Z :=
  fold_left (fun acc b => acc * 256 + Z.of_N (Byte.to_N b)) buf 0.

Fixpoint Bytes_go (n : nat) (x : N) (acc : list byte) : list byte :=
  match n with
  | O => acc
  | S n' =>
      if (x =? 0)%N then acc
      else Bytes_go n' (x / 256)%N (byte_of_N (x mod 256)%N :: acc)
  end.

(** [x.Bytes()]: the magnitude of [x] as a big-endian byte string without
    leading zeros. *)
Definition Bytes (x : Z) : list byte :=
  Bytes_go (N.size_nat (Z.abs_N x)) (Z.abs_N x) [].

(** [x.String()]: the decimal representation, with a sign for negatives. *)
Definition String (x : Z) : string := pretty x.

Definition Sign (x : Z) : Z := Z.sgn x.

(** [new(big.Int).Div(a, b)] for [b <> 0]: Euclidean division. *)
Definition Div (a b : Z) : Z := Z.sgn b * (a / Z.abs b).

End BigInt.

(** ** Data model *)

Inductive DataType : Type := Uint256 | Address | Bytes32.

Record Value : Type := mkValue {
  Value_Type : DataType;
  Value_Value : Z
}.

Record Log : Type := mkLog {
  Log_Address : list byte;      (* [20]byte *)
  Topics : list (list byte);    (* [][32]byte *)
  Data : list byte
}.

Record Context : Type := mkContext {
  BlockNumber : Z;
  Timestamp : Z;
  Sender : list byte;           (* [20]byte *)
  GasLimit : Z;                 (* uint64 *)
  GasPrice : Z
}.

(** [Storage] is a Go map keyed by the decimal string of the slot number. *)
Record Contract : Type := mkContract {
  Contract_Address : list byte; (* [20]byte *)
  Code : list byte;
  Contract_Storage : gmap string Value
}.

(** One call frame.  [contract] is a pointer: [None] is nil, [Some l] is the
    contract stored at location [l] of the heap. *)
Record EVM : Type := mkEVM {
  stack : list Value;           (* top of the stack = last element *)
  memory : list byte;
  contract : option nat;
  pc : Z;                       (* uint64 *)
  gas : Z;                      (* uint64 *)
  context : Context;
  returnData : list byte;
  logs : list Log;
  depth : Z
}.

(** The frame being executed together with the state all frames share: the
    contracts allocated so far and the [contracts] registry (one Go map,
    reached from every frame through the same reference). *)
Record Machine : Type := mkMachine {
  evm : EVM;
  heap : list Contract;
  contracts : gmap (list byte) nat
}.

Definition set_stack (s : list Value) (m : Machine) : Machine :=
  let e := evm m in
  mkMachine (mkEVM s (memory e) (contract e) (pc e) (gas e) (context e)
               (returnData e) (logs e) (depth e)) (heap m) (contracts m).

Definition set_pc (p : Z) (m : Machine) : Machine :=
  let e := evm m in
  mkMachine (mkEVM (stack e) (memory e) (contract e) p (gas e) (context e)
               (returnData e) (logs e) (depth e)) (heap m) (contracts m).

Definition set_gas (g : Z) (m : Machine) : Machine :=
  let e := evm m in
  mkMachine (mkEVM (stack e) (memory e) (contract e) (pc e) g (context e)
               (returnData e) (logs e) (depth e)) (heap m) (contracts m).

Definition set_returnData (d : list byte) (m : Machine) : Machine :=
  let e := evm m in
  mkMachine (mkEVM (stack e) (memory e) (contract e) (pc e) (gas e) (context e)
               d (logs e) (depth e)) (heap m) (contracts m).

Definition set_logs (l : list Log) (m : Machine) : Machine :=
  let e := evm m in
  mkMachine (mkEVM (stack e) (memory e) (contract e) (pc e) (gas e) (context e)
               (returnData e) l (depth e)) (heap m) (contracts m).

Definition set_evm (e : EVM) (m : Machine) : Machine :=
  mkMachine e (heap m) (contracts m).

Definition set_heap (h : list Contract) (m : Machine) : Machine :=
  mkMachine (evm m) h (contracts m).

Definition set_contracts (r : gmap (list byte) nat) (m : Machine) : Machine :=
  mkMachine (evm m) (heap m) r.

(** [NewEVM(context)]. *)
Definition NewEVM (ctx : Context) : Machine :=
  mkMachine (mkEVM [] [] None 0 (GasLimit ctx) ctx [] [] 0) [] ∅.

(** ** Stack methods *)

Module Stack.

Definition push (s : list Value) (value : Value) : result unit * list Value :=
  if MaxStackDepth <=? len s then (Err StackOverflow, s)
  else (Ok tt, s ++ [value]).

Definition pop (s : list Value) : result Value * list Value :=
  if len s =? 0 then (Err StackUnderflow, s)
  else
    match s !! (length s - 1)%nat with
    | Some value => (Ok value, take (length s - 1)%nat s)
    | None => (Panic, s)
    end.

End Stack.

(** A run of successive pushes, stopped by the first one that fails. *)
Fixpoint pushes (s : list Value) (values : list Value) : result unit * list Value :=
  match values with
  | [] => (Ok tt, s)
  | value :: rest =>
      match Stack.push s value with
      | (Ok _, s') => pushes s' rest
      | failed => failed
      end
  end.

(** ** Memory methods *)

Module Memory.

(** The guard of [store]: [offset+uint64(len(value)) > MaxMemorySize]. *)
Definition store_exceeds (offset : Z) (value : list byte) : bool :=
  MaxMemorySize <? uint64 (offset + len value).

Definition store (m : list byte) (offset : Z) (value : list byte)
  : result unit * list byte :=
  if store_exceeds offset value then (Err MemoryLimitExceeded, m)
  else
    let m1 :=
      if len m <? uint64 (offset + len value) then
        let newSize := uint64 (offset + len value) in
        let newData := replicate (Z.to_nat newSize) x00 in
        copy newData m
      else m in
    (* copy(m.data[offset:], value) *)
    if len m1 <? offset then (Panic, m1)
    else
      (Ok tt,
       take (Z.to_nat offset) m1 ++ copy (drop (Z.to_nat offset) m1) value).

(** The guard of [load]: [offset+size > uint64(len(m.data))]. *)
Definition load_out_of_bounds (m : list byte) (offset size : Z) : bool :=
  len m <? uint64 (offset + size).

(** [load] returns a view of [m.data].  No handler of main.go writes memory
    (nothing calls [store]), so a view never changes after it is taken and is
    modelled by its content. *)
Definition load (m : list byte) (offset size : Z) : result (list byte) :=
  if load_out_of_bounds m offset size then Err MemoryOutOfBounds
  else slice m offset (uint64 (offset + size)).

End Memory.

(** The effect of a store in the words of the specification: a buffer
    shorter than [offset + len value] is extended with zeros to exactly that
    length, then [value] overwrites the range that starts at [offset]. *)
Definition store_spec (m : list byte) (offset : nat) (value : list byte)
  : list byte :=
  let grown := m ++ replicate (offset + length value - length m)%nat x00 in
  take offset grown ++ value ++ drop (offset + length value)%nat grown.

(** ** Handlers as state transformers *)

(** A method of [*EVM]: it runs on a machine and leaves the machine as it
    mutated it, also when it returns an error. *)
Definition M (A : Type) : Type := Machine -> result A * Machine.

Definition ret {A} (a : A) : M A := fun m => (Ok a, m).

Definition bind {A B} (c : M A) (k : A -> M B) : M B := fun m =>
  match c m with
  | (Ok a, m') => k a m'
  | (Err e, m') => (Err e, m')
  | (Panic, m') => (Panic, m')
  | (OutOfFuel, m') => (OutOfFuel, m')
  end.

Definition throw {A} (e : Error) : M A := fun m => (Err e, m).
Definition out_of_fuel {A} : M A := fun m => (OutOfFuel, m).
Definition get : M Machine := fun m => (Ok m, m).
Definition modify (f : Machine -> Machine) : M unit := fun m => (Ok tt, f m).

Declare Scope evm_scope.
Delimit Scope evm_scope with evm.
Notation "'let*' x ':=' c 'in' k" := (bind c (fun x => k))
  (at level 10, x name, c at level 100, k at level 200) : evm_scope.
Notation "c ';;' k" := (bind c (fun _ => k))
  (at level 100, k at level 200, right associativity) : evm_scope.
Local Open Scope evm_scope.

(** [evm.stack.push(v)] and [evm.stack.pop()]. *)
Definition evm_stack_push (value : Value) : M unit := fun m =>
  let '(r, s) := Stack.push (stack (evm m)) value in (r, set_stack s m).

Definition evm_stack_pop : M Value := fun m =>
  let '(r, s) := Stack.pop (stack (evm m)) in (r, set_stack s m).

(** [evm.memory.load(offset, size)]. *)
Definition evm_memory_load (offset size : Z) : M (list byte) := fun m =>
  (Memory.load (memory (evm m)) offset size, m).

(** Dereference of a contract pointer. *)
Definition deref (p : option nat) : M Contract := fun m =>
  match p with
  | None => (Panic, m)
  | Some l => match heap m !! l with Some c => (Ok c, m) | None => (Panic, m) end
  end.

(** [*evm.contract]. *)
Definition evm_contract : M Contract :=
  let* m := get in deref (contract (evm m)).

(** [s[i]] for a [uint64] index. *)
Definition index {A} (l : list A) (i : Z) : M A := fun m =>
  match l !! Z.to_nat i with Some a => (Ok a, m) | None => (Panic, m) end.

Definition useGas (cost : Z) : M unit := fun m =>
  if gas (evm m) <? cost then (Err OutOfGas, m)
  else (Ok tt, set_gas (uint64 (gas (evm m) - cost)) m).

Definition binaryOperation (op : Z -> Z -> Z) (gasCost : Z) : M unit :=
  useGas gasCost ;;
  let* b := evm_stack_pop in
  let* a := evm_stack_pop in
  let result := op (Value_Value a) (Value_Value b) in
  evm_stack_push (mkValue Uint256 result).

Definition compareOperation (op : Z -> Z -> bool) (gasCost : Z) : M unit :=
  useGas gasCost ;;
  let* b := evm_stack_pop in
  let* a := evm_stack_pop in
  let result := op (Value_Value a) (Value_Value b) in
  if result then evm_stack_push (mkValue Uint256 1)
  else evm_stack_push (mkValue Uint256 0).

Definition sload (gasCost : Z) : M unit :=
  useGas gasCost ;;
  let* key := evm_stack_pop in
  let* c := evm_contract in
  let value :=
    match Contract_Storage c !! BigInt.String (Value_Value key) with
    | Some value => value
    | None => mkValue Uint256 0
    end in
  evm_stack_push value.

(** [evm.contract.Storage[k] = v]: the write goes to the contract the frame
    points to, and is seen by every frame that points to it. *)
Definition storage_write (k : string) (v : Value) : M unit := fun m =>
  match contract (evm m) with
  | None => (Panic, m)
  | Some l =>
      match heap m !! l with
      | None => (Panic, m)
      | Some c =>
          let c' := mkContract (Contract_Address c) (Code c)
                      (<[k := v]> (Contract_Storage c)) in
          (Ok tt, set_heap (<[l := c']> (heap m)) m)
      end
  end.

Definition sstore (gasCost : Z) : M unit :=
  useGas gasCost ;;
  let* value := evm_stack_pop in
  let* key := evm_stack_pop in
  storage_write (BigInt.String (Value_Value key)) value.

Definition jump (gasCost : Z) : M unit :=
  useGas gasCost ;;
  let* dest := evm_stack_pop in
  (* -1 because pc will be incremented after this *)
  modify (set_pc (uint64 (BigInt.Uint64 (Value_Value dest) - 1))).

Definition jumpi (gasCost : Z) : M unit :=
  useGas gasCost ;;
  let* condition := evm_stack_pop in
  let* dest := evm_stack_pop in
  if BigInt.Sign (Value_Value condition) =? 0 then ret tt
  else modify (set_pc (uint64 (BigInt.Uint64 (Value_Value dest) - 1))).

Definition push (size gasCost : Z) : M unit :=
  useGas gasCost ;;
  let* c := evm_contract in
  let* m := get in
  if len (Code c) <? uint64 (pc (evm m) + 1 + size) then throw PushOutOfBounds
  else
    let* buf := (fun m' => (slice (Code c) (uint64 (pc (evm m) + 1))
                              (uint64 (pc (evm m) + 1 + size)), m')) in
    let value := BigInt.SetBytes buf in
    modify (set_pc (uint64 (pc (evm m) + size))) ;;
    evm_stack_push (mkValue Uint256 value).

Definition dup (pos gasCost : Z) : M unit :=
  useGas gasCost ;;
  let* m := get in
  if len (stack (evm m)) <? pos then throw DupUnderflow
  else
    let* v := index (stack (evm m)) (uint64 (len (stack (evm m)) - pos)) in
    evm_stack_push v.

Definition swap (pos gasCost : Z) : M unit :=
  useGas gasCost ;;
  let* m := get in
  let s := stack (evm m) in
  if len s <=? pos then throw SwapUnderflow
  else
    let* top := index s (uint64 (len s - 1)) in
    let* below := index s (uint64 (len s - 1 - pos)) in
    modify (set_stack
              (<[Z.to_nat (uint64 (len s - 1 - pos)) := top]>
                 (<[Z.to_nat (uint64 (len s - 1)) := below]> s))).

(** The topic loop of [log]: one pop per topic, each copied into a fresh
    [[32]byte]. *)
Fixpoint popTopics (n : nat) : M (list (list byte)) :=
  match n with
  | O => ret []
  | S n' =>
      let* topic := evm_stack_pop in
      let* rest := popTopics n' in
      ret (copy (replicate 32 x00) (BigInt.Bytes (Value_Value topic)) :: rest)
  end.

Definition log (topicCount gasCost : Z) : M unit :=
  useGas gasCost ;;
  let* size := evm_stack_pop in
  let* offset := evm_stack_pop in
  let* data := evm_memory_load (BigInt.Uint64 (Value_Value offset))
                 (BigInt.Uint64 (Value_Value size)) in
  let* topics := popTopics (Z.to_nat topicCount) in
  let* c := evm_contract in
  let log := mkLog (Contract_Address c) topics data in
  let* m := get in
  modify (set_logs (logs (evm m) ++ [log])).

(** [sha256.New().Sum(nil)]: the SHA-256 digest of the empty input. *)
Definition sha256_empty : list byte :=
  [ xe3; xb0; xc4; x42; x98; xfc; x1c; x14; x9a; xfb; xf4; xc8; x99; x6f; xb9; x24;
    x27; xae; x41; xe4; x64; x9b; x93; x4c; xa4; x95; x99; x1b; x78; x52; xb8; x55 ].

(** The placeholder of main.go: the arguments are not used. *)
Definition createAddress (callerAddress : list byte) (nonce : Z) : list byte :=
  copy (replicate 20 x00) sha256_empty.

Definition create (gasCost : Z) : M unit :=
  useGas gasCost ;;
  let* size := evm_stack_pop in
  let* offset := evm_stack_pop in
  let* value := evm_stack_pop in
  let* code := evm_memory_load (BigInt.Uint64 (Value_Value offset))
                 (BigInt.Uint64 (Value_Value size)) in
  let* self := evm_contract in
  let* m := get in
  let address :=
    createAddress (Contract_Address self) (uint64 (Z.of_nat (base.size (contracts m)))) in
  let contract := mkContract address code ∅ in
  modify (fun m => set_contracts (<[address := length (heap m)]> (contracts m))
                     (set_heap (heap m ++ [contract]) m)) ;;
  evm_stack_push (mkValue Address (BigInt.SetBytes address)).

Definition returnOp (gasCost : Z) : M unit :=
  useGas gasCost ;;
  let* size := evm_stack_pop in
  let* offset := evm_stack_pop in
  let* data := evm_memory_load (BigInt.Uint64 (Value_Value offset))
                 (BigInt.Uint64 (Value_Value size)) in
  modify (set_returnData data).

Definition revert (gasCost : Z) : M unit :=
  useGas gasCost ;;
  let* size := evm_stack_pop in
  let* offset := evm_stack_pop in
  let* data := evm_memory_load (BigInt.Uint64 (Value_Value offset))
                 (BigInt.Uint64 (Value_Value size)) in
  modify (set_returnData data) ;;
  throw RevertWithData.


(** ** CALL and the dispatch *)

(** The seven operands of [call], named as the local variables of main.go. *)
Record CallOperands : Type := mkCallOperands {
  argsSize : Value;
  argsOffset : Value;
  retSize : Value;
  retOffset : Value;
  value : Value;
  address : Value;
  gasLimit : Value
}.

(** The seven pops at the head of [call], in the order of the source. *)
Definition popCallOperands : M CallOperands :=
  let* argsSize := evm_stack_pop in
  let* argsOffset := evm_stack_pop in
  let* retSize := evm_stack_pop in
  let* retOffset := evm_stack_pop in
  let* value := evm_stack_pop in
  let* address := evm_stack_pop in
  let* gasLimit := evm_stack_pop in
  ret (mkCallOperands argsSize argsOffset retSize retOffset value address gasLimit).

(** Runs [c] on the frame [callee], which shares the heap and the registry
    with the current frame; the current frame is resumed afterwards and the
    callee frame is handed back as [c] left it. *)
Definition in_frame {A} (callee : EVM) (c : M A) : M (A * EVM) := fun m =>
  match c (set_evm callee m) with
  | (Ok a, m') => (Ok (a, evm m'), set_evm (evm m) m')
  | (Err e, m') => (Err e, set_evm (evm m) m')
  | (Panic, m') => (Panic, set_evm (evm m) m')
  | (OutOfFuel, m') => (OutOfFuel, set_evm (evm m) m')
  end.

(** [calleeEVM := &EVM{...}]: the frame [call] builds for the contract at
    [contract], with fresh stack and memory, [gas] read from the gas-limit
    operand and the caller's context, one level deeper. *)
Definition callee_frame (m : Machine) (contract : nat) (gasLimit : Value) : EVM :=
  mkEVM [] [] (Some contract) 0 (BigInt.Uint64 (Value_Value gasLimit))
    (context (evm m)) [] [] (depth (evm m) + 1).

Section Call.

(** [ExecuteOpcode] as the nested frame runs it. *)
Variable exec : byte -> M unit.

(** The loop of [call] over the callee's code:
    [for calleeEVM.pc < uint64(len(contract.Code)) { ... }].
    The loop has no [pc++]; [n] bounds the number of iterations. *)
Fixpoint calleeLoop (n : nat) (contract : nat) : M unit :=
  match n with
  | O => out_of_fuel
  | S n' =>
      let* c := deref (Some contract) in
      let* m := get in
      if pc (evm m) <? len (Code c) then
        let* opcode := index (Code c) (pc (evm m)) in
        exec opcode ;;
        calleeLoop n' contract
      else ret tt
  end.

(** In main.go the target is read through a type assertion on
    [address.Value] and the gas with [gasLimit.Uint64()]; both stand for the
    [big.Int] inside the popped [Value]. *)
Definition call (steps : nat) (gasCost : Z) : M unit :=
  useGas gasCost ;;
  (* Pop arguments from stack *)
  let* o := popCallOperands in
  (* Load call data from memory *)
  let* args := evm_memory_load (BigInt.Uint64 (Value_Value (argsOffset o)))
                 (BigInt.Uint64 (Value_Value (argsSize o))) in
  (* Get the contract to call *)
  let* m := get in
  let contractAddress :=
    copy (replicate 20 x00) (BigInt.Bytes (Value_Value (address o))) in
  match contracts m !! contractAddress with
  | None => throw ContractNotFound
  | Some contract =>
      (* Execute the code of the called contract *)
      let calleeEVM := callee_frame m contract (gasLimit o) in
      let* r := in_frame calleeEVM (calleeLoop steps contract) in
      (* Store the return data *)
      let returnDataSize := BigInt.Uint64 (Value_Value (retSize o)) in
      let* returnData :=
        (fun m' => (Memory.load (memory (snd r))
                      (BigInt.Uint64 (Value_Value (retOffset o)))
                      returnDataSize, m')) in
      modify (set_returnData returnData)
  end.

End Call.

(** [ExecuteOpcode] executes a single opcode.  [fuel] bounds the nesting of
    CALL frames and the iterations of each nested loop; no other opcode
    looks at it. *)
Fixpoint ExecuteOpcode (fuel : nat) (opcode : byte) {struct fuel} : M unit :=
  match opcode with
  | x00 => (* STOP *) throw STOP
  | x01 => (* ADD *) binaryOperation (fun a b => a + b) 3
  | x02 => (* MUL *) binaryOperation (fun a b => a * b) 5
  | x03 => (* SUB *) binaryOperation (fun a b => a - b) 3
  | x04 => (* DIV *)
      binaryOperation
        (fun a b => if BigInt.Sign b =? 0 then 0 else BigInt.Div a b) 5
  | x10 => (* LT *) compareOperation (fun a b => a <? b) 3
  | x11 => (* GT *) compareOperation (fun a b => a >? b) 3
  | x14 => (* EQ *) compareOperation (fun a b => a =? b) 3
  | x54 => (* SLOAD *) sload 200
  | x55 => (* SSTORE *) sstore 20000
  | x56 => (* JUMP *) jump 8
  | x57 => (* JUMPI *) jumpi 10
  | x60 => (* PUSH1 *) push 1 3
  | x80 => (* DUP1 *) dup 1 3
  | x90 => (* SWAP1 *) swap 1 3
  | xa0 => (* LOG0 *) log 0 375
  | xf0 => (* CREATE *) create 32000
  | xf1 => (* CALL *)
      call (fun op => match fuel with
                      | O => out_of_fuel
                      | S fuel' => ExecuteOpcode fuel' op
                      end) fuel 40
  | xf3 => (* RETURN *) returnOp 0
  | xfd => (* REVERT *) revert 0
  | _ => throw (UnknownOpcode opcode)
  end.

(** The gas column of the dispatch: what each handler passes to [useGas].
    STOP and unknown bytes return before any charge. *)
Definition gasCostOf (opcode : byte) : option Z :=
  match opcode with
  | x01 | x03 | x10 | x11 | x14 | x60 | x80 | x90 => Some 3
  | x02 | x04 => Some 5
  | x54 => Some 200
  | x55 => Some 20000
  | x56 => Some 8
  | x57 => Some 10
  | xa0 => Some 375
  | xf0 => Some 32000
  | xf1 => Some 40
  | xf3 | xfd => Some 0
  | _ => None
  end.

(** ** The driver loop of [main] *)

(** [for evm.pc < uint64(len(contract.Code)) { if err := ...; err != nil
    { break }; evm.pc++ }].  The outcome [Err e] is the [break] on [e];
    [Ok tt] is the exit through the loop condition. *)
Fixpoint mainLoop (fuel : nat) (contract : nat) : M unit :=
  match fuel with
  | O => out_of_fuel
  | S fuel' =>
      let* c := deref (Some contract) in
      let* m := get in
      if pc (evm m) <? len (Code c) then
        let* opcode := index (Code c) (pc (evm m)) in
        ExecuteOpcode fuel' opcode ;;
        modify (fun m => set_pc (uint64 (pc (evm m) + 1)) m) ;;
        mainLoop fuel' contract
      else ret tt
  end.

(** [contract := &Contract{...}; evm.contract = contract]: the contract is
    allocated and the frame points to it. *)
Definition install (c : Contract) (m : Machine) : Machine :=
  let e := evm m in
  mkMachine (mkEVM (stack e) (memory e) (Some (length (heap m))) (pc e) (gas e)
               (context e) (returnData e) (logs e) (depth e))
            (heap m ++ [c]) (contracts m).

(** A root frame over [code], built as [main] builds its own. *)
Definition root (ctx : Context) (code : list byte) : Machine :=
  install (mkContract (replicate 20 x00) code ∅) (NewEVM ctx).

(** [evm.contracts[c.Address] = &c]: a contract allocated and entered in the
    registry under its own address, as [create] does. *)
Definition register (c : Contract) (m : Machine) : Machine :=
  set_contracts (<[Contract_Address c := length (heap m)]> (contracts m))
    (set_heap (heap m ++ [c]) m).

Definition main_context : Context :=
  mkContext 1 1 (replicate 20 x00) 1000000 1.

Definition main_code : list byte :=
  [ x60; x0a;  (* PUSH1 0x0a *)
    x60; x14;  (* PUSH1 0x14 *)
    x01;       (* ADD *)
    x00        (* STOP *) ].

Definition main (fuel : nat) : result unit * Machine :=
  mainLoop fuel 0%nat (root main_context main_code).

(** ** Fuel

    [fuel] only bounds the embedding's recursion.  The relation below compares
    two runs that differ in it. *)

(** [c'] gives every result that [c] gives without running out of fuel. *)
Definition extends {A} (c c' : M A) : Prop :=
  forall m r m', c m = (r, m') -> r <> OutOfFuel -> c' m = (r, m').

(** ** Assertions on runs

    [hoare P c Q]: when [P] holds of the machine [c] starts from, [Q] holds of
    the machine it leaves, whatever the outcome (value, error, panic). *)
Definition hoare {A} (P : Machine -> Prop) (c : M A) (Q : Machine -> Prop) : Prop :=
  forall m r m', P m -> c m = (r, m') -> Q m'.

(** [c] keeps [P]. *)
Definition preserves {A} (P : Machine -> Prop) (c : M A) : Prop := hoare P c P.

(** [c] hands the machine back as it got it. *)
Definition reads {A} (c : M A) : Prop := forall m, snd (c m) = m.

(** The parts of the frame [m] that [m'] still has: memory, contract pointer,
    context and depth. *)
Definition same_frame_identity (m m' : Machine) : Prop :=
  memory (evm m') = memory (evm m) /\
  contract (evm m') = contract (evm m) /\
  context (evm m') = context (evm m) /\
  depth (evm m') = depth (evm m).

(** The stack bound of [Stack.push]. *)
Definition stack_within_bound (m : Machine) : Prop :=
  len (stack (evm m)) <= MaxStackDepth.

(** The gas of the frame lies between 0 and [g]. *)
Definition gas_within (g : Z) (m : Machine) : Prop := 0 <= gas (evm m) <= g.

(** Every contract of [h] is still allocated in [m], at the same location,
    with the same code and address. *)
Definition contracts_kept (h : list Contract) (m : Machine) : Prop :=
  forall l c, h !! l = Some c ->
    exists c', heap m !! l = Some c' /\ Code c' = Code c /\
               Contract_Address c' = Contract_Address c.

(** Every address bound in [r] is bound in [m], and every address bound in
    [m] is bound to an allocated contract. *)
Definition registry_sound (r : gmap (list byte) nat) (m : Machine) : Prop :=
  (forall k, is_Some (r !! k) -> is_Some (contracts m !! k)) /\
  (forall k l, contracts m !! k = Some l -> (l < length (heap m))%nat).

(** [m'] has a stack that is an initial part of the stack of [m], and the
    program counter and logs of [m]. *)
Definition caller_untouched (m m' : Machine) : Prop :=
  stack (evm m') `prefix_of` stack (evm m) /\
  pc (evm m') = pc (evm m) /\
  logs (evm m') = logs (evm m).

(** A root frame over [code] with [g] units of gas and the stack [s]. *)
Definition frame_on (g : Z) (code : list byte) (s : list Value) : Machine :=
  set_stack s (root (mkContext 1 1 [] g 1) code).

(** * Properties *)

(** ** Arithmetic helpers *)

(** Closed comparisons between integer constants. *)
Ltac closed_Z :=
  repeat split;
  vm_compute; first [reflexivity | discriminate | intro; discriminate].

Lemma uint64_small (z : Z) : 0 <= z < 2 ^ 64 -> uint64 z = z.
Proof. intros H. unfold uint64. apply Z.mod_small. exact H. Qed.

Lemma uint64_range (z : Z) : 0 <= uint64 z < 2 ^ 64.
Proof. unfold uint64. apply Z.mod_pos_bound. lia. Qed.

Lemma uint64_wrap (z : Z) : 2 ^ 64 <= z < 2 ^ 65 -> uint64 z = z - 2 ^ 64.
Proof.
  intros H. unfold uint64.
  symmetry. apply (Z.mod_unique z (2 ^ 64) 1 (z - 2 ^ 64)); lia.
Qed.

Lemma MaxMemorySize_val : MaxMemorySize = 33554432.
Proof. reflexivity. Qed.

Lemma len_app {A} (l1 l2 : list A) : len (l1 ++ l2) = len l1 + len l2.
Proof. unfold len. rewrite length_app. lia. Qed.

Lemma len_nonneg {A} (l : list A) : 0 <= len l.
Proof. unfold len. lia. Qed.

(** ** Stack *)

Lemma push_ok (s : list Value) (v : Value) :
  len s < 1024 -> Stack.push s v = (Ok tt, s ++ [v]).
Proof.
  intros H. unfold Stack.push, MaxStackDepth.
  destruct (Z.leb_spec 1024 (len s)); [lia | reflexivity].
Qed.

Lemma push_overflow (s : list Value) (v : Value) :
  1024 <= len s -> Stack.push s v = (Err StackOverflow, s).
Proof.
  intros H. unfold Stack.push, MaxStackDepth.
  destruct (Z.leb_spec 1024 (len s)); [reflexivity | lia].
Qed.

Lemma pop_snoc (s : list Value) (v : Value) :
  Stack.pop (s ++ [v]) = (Ok v, s).
Proof.
  unfold Stack.pop. rewrite len_app.
  destruct (Z.eqb_spec (len s + len [v]) 0) as [E|_].
  - unfold len in E. simpl in E. lia.
  - rewrite length_app. simpl.
    replace (length s + 1 - 1)%nat with (length s) by lia.
    rewrite list_lookup_middle by reflexivity.
    rewrite take_app_length. reflexivity.
Qed.

Lemma pushes_ok (values s : list Value) :
  len s + len values <= 1024 -> pushes s values = (Ok tt, s ++ values).
Proof.
  revert s. induction values as [|v values IH]; intros s H; simpl.
  - rewrite app_nil_r. reflexivity.
  - unfold len in H. simpl in H.
    rewrite push_ok by (unfold len; lia).
    rewrite IH by (rewrite len_app; unfold len; simpl; lia).
    rewrite <- app_assoc. reflexivity.
Qed.

(** C7: [push] fails with StackOverflow exactly when the stack holds 1024
    values or more, and then leaves it as it was; otherwise it appends the
    value and the length grows by one.  Any run of at most 1024 pushes from
    the empty stack succeeds and the length is the number of pushes; one more
    push on a stack of 1024 values fails and the length stays 1024.  [pop] on
    the empty stack fails with StackUnderflow and leaves it empty; on a
    non-empty stack it removes the top value and returns it. *)
Theorem C7_stack_push_pop (s : list Value) (v : Value) :
  (fst (Stack.push s v) = Err StackOverflow <-> 1024 <= len s) /\
  (1024 <= len s -> Stack.push s v = (Err StackOverflow, s)) /\
  (len s < 1024 ->
     Stack.push s v = (Ok tt, s ++ [v]) /\ len (s ++ [v]) = len s + 1) /\
  (len s <= 1024 -> pushes [] s = (Ok tt, s)) /\
  (len s = 1024 ->
     Stack.push (snd (pushes [] s)) v = (Err StackOverflow, s) /\
     len (snd (Stack.push (snd (pushes [] s)) v)) = 1024) /\
  Stack.pop [] = (Err StackUnderflow, []) /\
  Stack.pop (s ++ [v]) = (Ok v, s).
Proof.
  repeat split.
  - intros H. destruct (Z.le_gt_cases 1024 (len s)) as [Hle|Hlt]; [exact Hle|].
    rewrite push_ok in H by lia. discriminate H.
  - intros H. rewrite push_overflow by exact H. reflexivity.
  - apply push_overflow.
  - apply push_ok. assumption.
  - rewrite len_app. reflexivity.
  - intros H. rewrite pushes_ok by (change (len (@nil Value)) with 0; lia).
    reflexivity.
  - rewrite pushes_ok by (change (len (@nil Value)) with 0; lia). simpl.
    apply push_overflow. lia.
  - rewrite pushes_ok by (change (len (@nil Value)) with 0; lia). simpl.
    rewrite push_overflow by lia. simpl. assumption.
  - apply pop_snoc.
Qed.

Lemma C7_stack_push_pop_witness :
  let s := replicate 1024 (mkValue Uint256 7) in
  let v := mkValue Uint256 9 in
  len s = 1024 /\
  Stack.push (snd (pushes [] s)) v = (Err StackOverflow, s) /\
  Stack.push [v] v = (Ok tt, [v; v]) /\
  Stack.pop ([v] ++ [v]) = (Ok v, [v]).
Proof.
  intros s v.
  assert (Hlen : len s = 1024) by (vm_compute; reflexivity).
  destruct (C7_stack_push_pop s v) as (_ & _ & _ & _ & Hfull & _ & _).
  destruct (C7_stack_push_pop [v] v) as (_ & _ & Hpush & _ & _ & _ & Hpop).
  split; [exact Hlen|].
  split; [exact (proj1 (Hfull Hlen))|].
  split; [apply Hpush; vm_compute; reflexivity | exact Hpop].
Defined.

(** ** Memory *)

Lemma slice_ok {A} (l : list A) (lo hi : Z) :
  0 <= lo <= hi -> hi <= len l ->
  slice l lo hi = Ok (take (Z.to_nat (hi - lo)) (drop (Z.to_nat lo) l)).
Proof.
  intros H1 H2. unfold slice.
  destruct (Z.leb_spec lo hi); [|lia].
  destruct (Z.leb_spec hi (len l)); [|lia]. reflexivity.
Qed.

Lemma slice_inverted {A} (l : list A) (lo hi : Z) :
  hi < lo -> slice l lo hi = Panic.
Proof.
  intros H. unfold slice. destruct (Z.leb_spec lo hi); [lia | reflexivity].
Qed.

Lemma store_grow (m : list byte) (n : nat) :
  (if len m <? Z.of_nat n then copy (replicate n x00) m else m)
  = m ++ replicate (n - length m)%nat x00.
Proof.
  unfold len. destruct (Z.ltb_spec (Z.of_nat (length m)) (Z.of_nat n)).
  - unfold copy. rewrite length_replicate, take_ge by lia.
    rewrite drop_replicate. reflexivity.
  - replace (n - length m)%nat with 0%nat by lia. simpl.
    rewrite app_nil_r. reflexivity.
Qed.

(** Without wrap-around, [store] is the store of the specification. *)
Lemma store_no_wrap (m : list byte) (offset : Z) (value : list byte) :
  0 <= offset -> offset + len value < 2 ^ 64 ->
  Memory.store m offset value =
    if MaxMemorySize <? offset + len value then (Err MemoryLimitExceeded, m)
    else (Ok tt, store_spec m (Z.to_nat offset) value).
Proof.
  intros H0 Hlt. pose proof (len_nonneg value) as Hv.
  unfold Memory.store, Memory.store_exceeds.
  rewrite uint64_small by lia.
  destruct (Z.ltb_spec MaxMemorySize (offset + len value)) as [|Hle]; [reflexivity|].
  replace (offset + len value)
    with (Z.of_nat (Z.to_nat offset + length value)) by (unfold len; lia).
  rewrite Nat2Z.id, store_grow.
  unfold store_spec.
  set (grown := m ++ replicate (Z.to_nat offset + length value - length m)%nat x00).
  assert (Hg : (Z.to_nat offset + length value <= length grown)%nat).
  { unfold grown. rewrite length_app, length_replicate. lia. }
  destruct (Z.ltb_spec (len grown) offset) as [Hbad|_].
  { unfold len in Hbad. lia. }
  unfold copy. rewrite length_drop, (take_ge value) by lia.
  rewrite drop_drop. reflexivity.
Qed.

Lemma store_spec_length (m : list byte) (offset : nat) (value : list byte) :
  length (store_spec m offset value) = Nat.max (length m) (offset + length value).
Proof.
  unfold store_spec.
  rewrite !length_app, length_take, length_drop, length_app, length_replicate.
  lia.
Qed.

Lemma store_spec_written (m : list byte) (offset : nat) (value : list byte) :
  take (length value) (drop offset (store_spec m offset value)) = value.
Proof.
  unfold store_spec.
  set (grown := m ++ replicate (offset + length value - length m)%nat x00).
  assert (Hg : (offset + length value <= length grown)%nat).
  { unfold grown. rewrite length_app, length_replicate. lia. }
  rewrite drop_app_length' by (rewrite length_take; lia).
  rewrite take_app_length. reflexivity.
Qed.

Lemma store_spec_before (m : list byte) (offset : nat) (value : list byte) (i : nat) :
  (i < offset)%nat ->
  store_spec m offset value !! i =
    if decide (i < length m)%nat then m !! i else Some x00.
Proof.
  intros Hi. unfold store_spec.
  set (grown := m ++ replicate (offset + length value - length m)%nat x00).
  assert (Hg : (offset + length value <= length grown)%nat).
  { unfold grown. rewrite length_app, length_replicate. lia. }
  rewrite lookup_app_l by (rewrite length_take; lia).
  rewrite lookup_take_lt by lia. unfold grown.
  destruct (decide (i < length m)%nat).
  - apply lookup_app_l. assumption.
  - rewrite lookup_app_r by lia. apply lookup_replicate_2. lia.
Qed.

Lemma store_spec_after (m : list byte) (offset : nat) (value : list byte) (i : nat) :
  (offset + length value <= i)%nat ->
  store_spec m offset value !! i = m !! i.
Proof.
  intros Hi. unfold store_spec.
  set (grown := m ++ replicate (offset + length value - length m)%nat x00).
  assert (Hg : (offset + length value <= length grown)%nat).
  { unfold grown. rewrite length_app, length_replicate. lia. }
  rewrite lookup_app_r by (rewrite length_take_le; lia).
  rewrite length_take_le by lia.
  rewrite lookup_app_r by lia.
  rewrite lookup_drop.
  replace (offset + length value + (i - offset - length value))%nat
    with i by lia.
  unfold grown. destruct (decide (i < length m)%nat).
  - apply lookup_app_l. assumption.
  - rewrite lookup_app_r by lia.
    rewrite (lookup_ge_None_2 m) by lia.
    apply lookup_replicate_None. lia.
Qed.

(** Without wrap-around, a load of the range just stored reads it back. *)
Lemma load_after_store (m m' : list byte) (offset : Z) (value : list byte) :
  0 <= offset -> offset + len value < 2 ^ 64 ->
  Memory.store m offset value = (Ok tt, m') ->
  Memory.load m' offset (len value) = Ok value.
Proof.
  intros H0 Hlt Hst. pose proof (len_nonneg value) as Hv.
  rewrite store_no_wrap in Hst by assumption.
  destruct (MaxMemorySize <? offset + len value); [discriminate|].
  injection Hst as <-.
  unfold Memory.load, Memory.load_out_of_bounds.
  rewrite uint64_small by lia.
  assert (Hlen : offset + len value <= len (store_spec m (Z.to_nat offset) value)).
  { unfold len. rewrite store_spec_length. unfold len in *. lia. }
  destruct (Z.ltb_spec (len (store_spec m (Z.to_nat offset) value))
              (offset + len value)); [lia|].
  rewrite slice_ok by lia.
  replace (Z.to_nat (offset + len value - offset)) with (length value)
    by (unfold len; lia).
  rewrite store_spec_written. reflexivity.
Qed.

(** C6: [store] is specified to fail with MemoryLimitExceeded whenever
    [offset + len(bytes)] exceeds 32 MiB.  At offset 2^64 - 1 with one byte
    the sum is 2^64, far above the limit, yet the guard of main.go adds in
    [uint64], sees 0, and lets the store through to the slice expression,
    which panics: no MemoryLimitExceeded is returned.  ([store_no_wrap],
    [load_after_store] and [store_spec_before] show that the behaviour the
    claim describes holds whenever the sum stays below 2^64.) *)
Theorem C6_store_guard_misses_wrapped_sum :
  MaxMemorySize < (2 ^ 64 - 1) + len [x01] /\
  Memory.store_exceeds (2 ^ 64 - 1) [x01] = false /\
  Memory.store [] (2 ^ 64 - 1) [x01] = (Panic, []) /\
  fst (Memory.store [] (2 ^ 64 - 1) [x01]) <> Err MemoryLimitExceeded.
Proof.
  split; [vm_compute; reflexivity|].
  split; [vm_compute; reflexivity|].
  split; [vm_compute; reflexivity|].
  vm_compute. discriminate.
Qed.

(** C10: the guards of [store] and [load] add offset and size in wrapping
    64-bit arithmetic.  Whenever the true sum reaches 2^64 and the wrapped sum
    fits the buffer, both guards pass although the offset alone is beyond the
    32 MiB limit and beyond the buffer; the slice expression that follows is
    then out of bounds and the call panics instead of returning an error. *)
Theorem C10_memory_guards_wrap (m : list byte) (offset : Z) (value : list byte) :
  0 <= offset < 2 ^ 64 -> len value < 2 ^ 64 ->
  len m <= MaxMemorySize -> MaxMemorySize < offset ->
  2 ^ 64 <= offset + len value ->
  offset + len value - 2 ^ 64 <= len m ->
  uint64 (offset + len value) = offset + len value - 2 ^ 64 /\
  len m < offset /\
  Memory.store_exceeds offset value = false /\
  Memory.load_out_of_bounds m offset (len value) = false /\
  fst (Memory.store m offset value) = Panic /\
  Memory.load m offset (len value) = Panic.
Proof.
  intros Hoff Hsz Hm Hbig Hsum Hfit.
  assert (Hw : uint64 (offset + len value) = offset + len value - 2 ^ 64)
    by (apply uint64_wrap; lia).
  assert (Hex : Memory.store_exceeds offset value = false).
  { unfold Memory.store_exceeds. rewrite Hw. apply Z.ltb_ge. lia. }
  assert (Hld : Memory.load_out_of_bounds m offset (len value) = false).
  { unfold Memory.load_out_of_bounds. rewrite Hw. apply Z.ltb_ge. lia. }
  repeat split; try assumption; try lia.
  - unfold Memory.store. rewrite Hex, Hw.
    destruct (Z.ltb_spec (len m) (offset + len value - 2 ^ 64)); [lia|].
    destruct (Z.ltb_spec (len m) offset); [reflexivity | lia].
  - unfold Memory.load. rewrite Hld, Hw. apply slice_inverted. lia.
Qed.

Lemma C10_memory_guards_wrap_witness :
  Memory.store_exceeds (2 ^ 64 - 1) [x2a] = false /\
  Memory.load_out_of_bounds [x00; x00] (2 ^ 64 - 1) 1 = false /\
  fst (Memory.store [x00; x00] (2 ^ 64 - 1) [x2a]) = Panic /\
  Memory.load [x00; x00] (2 ^ 64 - 1) 1 = Panic.
Proof.
  assert (H1 : 0 <= 2 ^ 64 - 1 < 2 ^ 64) by closed_Z.
  assert (H2 : len [x2a] < 2 ^ 64) by closed_Z.
  assert (H3 : len [x00; x00] <= MaxMemorySize) by closed_Z.
  assert (H4 : MaxMemorySize < 2 ^ 64 - 1) by closed_Z.
  assert (H5 : 2 ^ 64 <= 2 ^ 64 - 1 + len [x2a]) by closed_Z.
  assert (H6 : 2 ^ 64 - 1 + len [x2a] - 2 ^ 64 <= len [x00; x00]) by closed_Z.
  destruct (C10_memory_guards_wrap [x00; x00] (2 ^ 64 - 1) [x2a] H1 H2 H3 H4 H5 H6)
    as (_ & _ & Hs & Hl & Hst & Hlo).
  repeat split; assumption.
Defined.

(** ** Gas *)

Lemma useGas_fail (cost : Z) (m : Machine) :
  gas (evm m) < cost -> useGas cost m = (Err OutOfGas, m).
Proof.
  intros H. unfold useGas.
  destruct (Z.ltb_spec (gas (evm m)) cost); [reflexivity | lia].
Qed.

Lemma useGas_ok (cost : Z) (m : Machine) :
  0 <= cost <= gas (evm m) -> gas (evm m) < 2 ^ 64 ->
  useGas cost m = (Ok tt, set_gas (gas (evm m) - cost) m).
Proof.
  intros H1 H2. unfold useGas.
  destruct (Z.ltb_spec (gas (evm m)) cost); [lia|].
  rewrite uint64_small by lia. reflexivity.
Qed.

Lemma bind_useGas_fail {A} (cost : Z) (k : unit -> M A) (m : Machine) :
  gas (evm m) < cost -> bind (useGas cost) k m = (Err OutOfGas, m).
Proof. intros H. unfold bind. rewrite useGas_fail by exact H. reflexivity. Qed.

(** Every handler with an entry in the gas column starts with [useGas] on
    that entry; the bytes without an entry return an error at once. *)
Lemma dispatch_charges_first (fuel : nat) (opcode : byte) :
  match gasCostOf opcode with
  | Some cost => exists k, ExecuteOpcode fuel opcode = bind (useGas cost) k
  | None => exists e, ExecuteOpcode fuel opcode = throw e
  end.
Proof.
  destruct fuel; destruct opcode; cbn [gasCostOf ExecuteOpcode];
    first [ eexists; unfold binaryOperation, compareOperation, sload, sstore,
              jump, jumpi, push, dup, swap, log, create, call, returnOp, revert;
            reflexivity ].
Qed.

(** C2: charging gas fails with OutOfGas exactly when the cost exceeds the
    remaining gas, and the machine is then left as it was; otherwise the
    remaining gas decreases by exactly the cost and stays non-negative.
    Every opcode with a cost charges it before anything else, so an opcode
    whose cost exceeds the remaining gas returns OutOfGas and leaves the whole
    machine (stack, memory, storage included) unchanged. *)
Theorem C2_gas_charge (m : Machine) (cost : Z) :
  0 <= cost < 2 ^ 64 -> 0 <= gas (evm m) < 2 ^ 64 ->
  (fst (useGas cost m) = Err OutOfGas <-> gas (evm m) < cost) /\
  (gas (evm m) < cost -> useGas cost m = (Err OutOfGas, m)) /\
  (cost <= gas (evm m) ->
     useGas cost m = (Ok tt, set_gas (gas (evm m) - cost) m)) /\
  0 <= gas (evm (snd (useGas cost m))) <= gas (evm m) /\
  (forall fuel opcode,
     gasCostOf opcode = Some cost -> gas (evm m) < cost ->
     ExecuteOpcode fuel opcode m = (Err OutOfGas, m)).
Proof.
  intros Hc Hg.
  assert (Hcases : gas (evm m) < cost \/ cost <= gas (evm m)) by lia.
  split; [|split; [|split; [|split]]].
  - split.
    + intros H. destruct Hcases as [Hlt|Hge]; [exact Hlt|].
      rewrite useGas_ok in H by lia. discriminate H.
    + intros H. rewrite useGas_fail by exact H. reflexivity.
  - apply useGas_fail.
  - intros H. apply useGas_ok; lia.
  - destruct Hcases as [Hlt|Hge].
    + rewrite useGas_fail by exact Hlt. simpl. lia.
    + rewrite useGas_ok by lia. simpl. lia.
  - intros fuel opcode Hcost Hlt.
    pose proof (dispatch_charges_first fuel opcode) as Hd.
    rewrite Hcost in Hd. destruct Hd as [k ->].
    apply bind_useGas_fail. exact Hlt.
Qed.

Lemma C2_gas_charge_witness :
  let m := set_stack [mkValue Uint256 1; mkValue Uint256 2]
             (root (mkContext 1 1 [] 2 1) [x01]) in
  gas (evm m) = 2 /\
  useGas 3 m = (Err OutOfGas, m) /\
  ExecuteOpcode 1 x01 m = (Err OutOfGas, m).
Proof.
  intros m.
  assert (Hc : 0 <= 3 < 2 ^ 64) by closed_Z.
  assert (Hg : 0 <= gas (evm m) < 2 ^ 64) by closed_Z.
  assert (Hlt : gas (evm m) < 3) by closed_Z.
  destruct (C2_gas_charge m 3 Hc Hg) as (_ & Hfail & _ & _ & Hop).
  split; [reflexivity|].
  split; [exact (Hfail Hlt) | exact (Hop 1%nat x01 eq_refl Hlt)].
Defined.

(** ** Frame-level stack steps *)

Lemma evm_stack_pop_snoc (m : Machine) (s : list Value) (v : Value) :
  stack (evm m) = s ++ [v] -> evm_stack_pop m = (Ok v, set_stack s m).
Proof. intros H. unfold evm_stack_pop. rewrite H, pop_snoc. reflexivity. Qed.

Lemma evm_stack_push_ok (m : Machine) (v : Value) :
  len (stack (evm m)) < 1024 ->
  evm_stack_push v m = (Ok tt, set_stack (stack (evm m) ++ [v]) m).
Proof. intros H. unfold evm_stack_push. rewrite push_ok by exact H. reflexivity. Qed.

Lemma useGas_ok' (cost : Z) (m : Machine) :
  cost <= gas (evm m) ->
  useGas cost m = (Ok tt, set_gas (uint64 (gas (evm m) - cost)) m).
Proof.
  intros H. unfold useGas.
  destruct (Z.ltb_spec (gas (evm m)) cost); [lia | reflexivity].
Qed.

(** ** Storage *)




(** A store to another slot does not change what a key reads: the decimal
    strings of distinct integers are distinct. *)
Lemma storage_key_inj (k1 k2 : Z) :
  BigInt.String k1 = BigInt.String k2 -> k1 = k2.
Proof. unfold BigInt.String. apply pretty_Z_inj. Qed.

Lemma sstore_other_key (st : gmap string Value) (k k' : Z) (v : Value) :
  k <> k' ->
  <[BigInt.String k' := v]> st !! BigInt.String k = st !! BigInt.String k.
Proof.
  intros Hne. apply lookup_insert_ne. intros E. apply storage_key_inj in E.
  congruence.
Qed.



(** ** The driver loop, one iteration at a time *)

Lemma ExecuteOpcode_fuel_irrelevant (fuel : nat) (opcode : byte) :
  opcode <> xf1 -> ExecuteOpcode fuel opcode = ExecuteOpcode 0 opcode.
Proof.
  intros H. destruct fuel; [reflexivity|].
  destruct opcode; try reflexivity. congruence.
Qed.

(** An iteration whose fetch succeeds: the opcode runs, then [pc++], then
    the loop goes on; an error of the opcode ends the loop before [pc++]. *)
Lemma mainLoop_step (fuel l : nat) (c : Contract) (m : Machine) (opcode : byte) :
  heap m !! l = Some c ->
  pc (evm m) < len (Code c) ->
  Code c !! Z.to_nat (pc (evm m)) = Some opcode ->
  mainLoop (S fuel) l m =
    bind (ExecuteOpcode fuel opcode)
      (fun _ => bind (modify (fun m => set_pc (uint64 (pc (evm m) + 1)) m))
                  (fun _ => mainLoop fuel l)) m.
Proof.
  intros Hl Hpc Hop. cbn [mainLoop]. unfold bind at 1. unfold deref. rewrite Hl.
  unfold bind at 1. unfold get.
  destruct (Z.ltb_spec (pc (evm m)) (len (Code c))); [|lia].
  unfold bind at 1. unfold index. rewrite Hop. reflexivity.
Qed.

(** The exit through the loop condition. *)
Lemma mainLoop_exit (fuel l : nat) (c : Contract) (m : Machine) :
  heap m !! l = Some c ->
  len (Code c) <= pc (evm m) ->
  mainLoop (S fuel) l m = (Ok tt, m).
Proof.
  intros Hl Hpc. cbn [mainLoop]. unfold bind at 1. unfold deref. rewrite Hl.
  unfold bind at 1. unfold get.
  destruct (Z.ltb_spec (pc (evm m)) (len (Code c))); [lia | reflexivity].
Qed.

Lemma binaryOperation_spec (op : Z -> Z -> Z) (cost : Z) (m : Machine)
    (s : list Value) (a b : Value) :
  stack (evm m) = s ++ [a; b] -> len s < 1024 ->
  0 <= cost <= gas (evm m) -> gas (evm m) < 2 ^ 64 ->
  binaryOperation op cost m =
    (Ok tt,
     set_stack (s ++ [mkValue Uint256 (op (Value_Value a) (Value_Value b))])
       (set_gas (gas (evm m) - cost) m)).
Proof.
  intros Hs Hlen Hc Hg. unfold binaryOperation, bind.
  rewrite useGas_ok by assumption.
  rewrite (evm_stack_pop_snoc _ (s ++ [a]) b)
    by (cbn; rewrite Hs, <- app_assoc; reflexivity).
  rewrite (evm_stack_pop_snoc _ s a) by reflexivity.
  rewrite evm_stack_push_ok by exact Hlen.
  reflexivity.
Qed.

Lemma push_spec (size cost : Z) (m : Machine) (l : nat) (c : Contract)
    (buf : list byte) :
  contract (evm m) = Some l -> heap m !! l = Some c ->
  0 <= cost <= gas (evm m) -> gas (evm m) < 2 ^ 64 ->
  uint64 (pc (evm m) + 1 + size) <= len (Code c) ->
  slice (Code c) (uint64 (pc (evm m) + 1)) (uint64 (pc (evm m) + 1 + size))
    = Ok buf ->
  len (stack (evm m)) < 1024 ->
  push size cost m =
    (Ok tt,
     set_stack (stack (evm m) ++ [mkValue Uint256 (BigInt.SetBytes buf)])
       (set_pc (uint64 (pc (evm m) + size)) (set_gas (gas (evm m) - cost) m))).
Proof.
  intros Hc Hl Hcost Hg Hb Hsl Hlen. unfold push, bind.
  rewrite useGas_ok by assumption.
  unfold evm_contract, bind, get, deref.
  cbn [evm set_gas contract heap pc]. rewrite Hc, Hl.
  change (pc (evm (set_gas (gas (evm m) - cost) m))) with (pc (evm m)).
  destruct (Z.ltb_spec (len (Code c)) (uint64 (pc (evm m) + 1 + size))); [lia|].
  rewrite Hsl. unfold modify.
  rewrite evm_stack_push_ok by exact Hlen.
  reflexivity.
Qed.

(** ** Fuel *)

Lemma extends_refl {A} (c : M A) : extends c c.
Proof. intros m r m' H _. exact H. Qed.

Lemma extends_bind {A B} (c c' : M A) (k k' : A -> M B) :
  extends c c' -> (forall a, extends (k a) (k' a)) ->
  extends (bind c k) (bind c' k').
Proof.
  intros Hc Hk m r m' H Hr. unfold bind in *.
  destruct (c m) as [[a|e| |] m1] eqn:E.
  - rewrite (Hc m (Ok a) m1 E) by discriminate. apply (Hk a); assumption.
  - rewrite (Hc m (Err e) m1 E) by discriminate. exact H.
  - rewrite (Hc m Panic m1 E) by discriminate. exact H.
  - injection H as <- <-. congruence.
Qed.

Lemma extends_in_frame {A} (callee : EVM) (c c' : M A) :
  extends c c' -> extends (in_frame callee c) (in_frame callee c').
Proof.
  intros Hc m r m' H Hr. unfold in_frame in *.
  destruct (c (set_evm callee m)) as [[a|e| |] m1] eqn:E.
  - rewrite (Hc _ (Ok a) m1 E) by discriminate. exact H.
  - rewrite (Hc _ (Err e) m1 E) by discriminate. exact H.
  - rewrite (Hc _ Panic m1 E) by discriminate. exact H.
  - injection H as <- <-. congruence.
Qed.

Lemma extends_calleeLoop (exec exec' : byte -> M unit) (l : nat) :
  (forall op, extends (exec op) (exec' op)) ->
  forall n n', (n <= n')%nat ->
  extends (calleeLoop exec n l) (calleeLoop exec' n' l).
Proof.
  intros Hex. induction n as [|n IH]; intros n' Hn.
  - intros m r m' H Hr. injection H as <- <-. congruence.
  - destruct n' as [|n']; [lia|]. cbn [calleeLoop].
    apply extends_bind; [apply extends_refl|]. intros c.
    apply extends_bind; [apply extends_refl|]. intros m.
    destruct (pc (evm m) <? len (Code c)); [|apply extends_refl].
    apply extends_bind; [apply extends_refl|]. intros op.
    apply extends_bind; [apply Hex|]. intros _.
    apply IH. lia.
Qed.

Lemma extends_call (exec exec' : byte -> M unit) (n n' : nat) (gasCost : Z) :
  (forall op, extends (exec op) (exec' op)) -> (n <= n')%nat ->
  extends (call exec n gasCost) (call exec' n' gasCost).
Proof.
  intros Hex Hn. unfold call.
  apply extends_bind; [apply extends_refl|]. intros _.
  apply extends_bind; [apply extends_refl|]. intros o.
  apply extends_bind; [apply extends_refl|]. intros args.
  apply extends_bind; [apply extends_refl|]. intros m.
  destruct (contracts m !! _); [|apply extends_refl].
  apply extends_bind; [|intros r; apply extends_refl].
  apply extends_in_frame. apply extends_calleeLoop; assumption.
Qed.

Lemma extends_ExecuteOpcode (fuel fuel' : nat) (opcode : byte) :
  (fuel <= fuel')%nat ->
  extends (ExecuteOpcode fuel opcode) (ExecuteOpcode fuel' opcode).
Proof.
  revert fuel' opcode. induction fuel as [|fuel IH]; intros fuel' opcode Hf.
  - destruct (decide (opcode = xf1)) as [->|Hne].
    + destruct fuel'; cbn [ExecuteOpcode];
        (apply extends_call; [|lia]);
        intros op m r m' H Hr; injection H as <- <-; congruence.
    + rewrite (ExecuteOpcode_fuel_irrelevant fuel') by exact Hne.
      apply extends_refl.
  - destruct fuel' as [|fuel']; [lia|].
    destruct (decide (opcode = xf1)) as [->|Hne].
    + cbn [ExecuteOpcode]. apply extends_call; [|lia].
      intros op. apply IH. lia.
    + rewrite (ExecuteOpcode_fuel_irrelevant (S fuel)),
        (ExecuteOpcode_fuel_irrelevant (S fuel')) by exact Hne.
      apply extends_refl.
Qed.

Lemma extends_mainLoop (fuel fuel' l : nat) :
  (fuel <= fuel')%nat -> extends (mainLoop fuel l) (mainLoop fuel' l).
Proof.
  revert fuel'. induction fuel as [|fuel IH]; intros fuel' Hf.
  - intros m r m' H Hr. injection H as <- <-. congruence.
  - destruct fuel' as [|fuel']; [lia|]. cbn [mainLoop].
    apply extends_bind; [apply extends_refl|]. intros c.
    apply extends_bind; [apply extends_refl|]. intros m.
    destruct (pc (evm m) <? len (Code c)); [|apply extends_refl].
    apply extends_bind; [apply extends_refl|]. intros op.
    apply extends_bind; [apply extends_ExecuteOpcode; lia|]. intros _.
    apply extends_bind; [apply extends_refl|]. intros _.
    apply IH. lia.
Qed.

(** A run of the driver loop that ends without exhausting the fuel ends the
    same way with any larger fuel. *)
Lemma mainLoop_more_fuel (fuel n l : nat) (m : Machine) :
  fst (mainLoop fuel l m) <> OutOfFuel ->
  mainLoop (fuel + n) l m = mainLoop fuel l m.
Proof.
  intros H. destruct (mainLoop fuel l m) as [r m'] eqn:E.
  apply (extends_mainLoop fuel (fuel + n) l); [lia | exact E | exact H].
Qed.

Lemma ExecuteOpcode_more_fuel (fuel n : nat) (opcode : byte) (m : Machine) :
  fst (ExecuteOpcode fuel opcode m) <> OutOfFuel ->
  ExecuteOpcode (fuel + n) opcode m = ExecuteOpcode fuel opcode m.
Proof.
  intros H. destruct (ExecuteOpcode fuel opcode m) as [r m'] eqn:E.
  apply (extends_ExecuteOpcode fuel (fuel + n) opcode); [lia | exact E | exact H].
Qed.

(** ** Scenario A *)

(** One iteration of the driver loop on the opcode [op], whose handler is
    [handler]: the goal is left at the handler applied to the machine. *)
Ltac loop_step c op handler :=
  rewrite (mainLoop_step _ _ c _ op) by reflexivity;
  unfold bind at 1;
  rewrite (ExecuteOpcode_fuel_irrelevant _ op) by discriminate;
  change (ExecuteOpcode 0 op) with handler.

(** C1: the code of [main] (PUSH1 10, PUSH1 20, ADD, STOP), run by the
    driver loop from a fresh root frame with at least 9 units of gas, breaks
    out of the loop on STOP with the stack holding exactly the value 30 and
    with exactly 9 units of gas consumed. *)
Theorem C1_scenario_A (ctx : Context) (fuel : nat) :
  9 <= GasLimit ctx < 2 ^ 64 -> (4 <= fuel)%nat ->
  exists m',
    mainLoop fuel 0 (root ctx main_code) = (Err STOP, m') /\
    stack (evm m') = [mkValue Uint256 30] /\
    GasLimit ctx - gas (evm m') = 9 /\
    pc (evm m') = 5.
Proof.
  intros Hg Hf. destruct fuel as [|[|[|[|n]]]]; try lia. clear Hf.
  set (c := mkContract (replicate 20 x00) main_code ∅).
  set (G := GasLimit ctx) in *.
  set (at_ := fun (g p : Z) (s : list Value) =>
                mkMachine (mkEVM s [] (Some 0%nat) p g ctx [] [] 0) [c] ∅).
  change (root ctx main_code) with (at_ G 0 []).
  (* PUSH1 0x0a *)
  loop_step c x60 (push 1 3).
  rewrite (push_spec 1 3 _ 0%nat c [x0a]);
    [ | reflexivity | reflexivity | cbn; lia | cbn; lia | closed_Z
      | reflexivity | closed_Z ].
  unfold bind at 1, modify at 1.
  change (set_pc _ _) with (at_ (G - 3) 2 [mkValue Uint256 10]).
  (* PUSH1 0x14 *)
  loop_step c x60 (push 1 3).
  rewrite (push_spec 1 3 _ 0%nat c [x14]);
    [ | reflexivity | reflexivity | cbn; lia | cbn; lia | closed_Z
      | reflexivity | closed_Z ].
  unfold bind at 1, modify at 1.
  change (set_pc _ _)
    with (at_ (G - 3 - 3) 4 [mkValue Uint256 10; mkValue Uint256 20]).
  (* ADD *)
  loop_step c x01 (binaryOperation (fun a b => a + b) 3).
  rewrite (binaryOperation_spec _ 3 _ [] (mkValue Uint256 10) (mkValue Uint256 20));
    [ | reflexivity | closed_Z | cbn; lia | cbn; lia ].
  unfold bind at 1, modify at 1.
  change (set_pc _ _) with (at_ (G - 3 - 3 - 3) 5 [mkValue Uint256 30]).
  (* STOP *)
  loop_step c x00 (@throw unit STOP).
  unfold throw. eexists. split; [reflexivity|]. cbn. repeat split. lia.
Qed.

Lemma C1_scenario_A_witness :
  exists m',
    main 6 = (Err STOP, m') /\
    stack (evm m') = [mkValue Uint256 30] /\
    1000000 - gas (evm m') = 9 /\
    pc (evm m') = 5.
Proof.
  assert (Hg : 9 <= GasLimit main_context < 2 ^ 64) by closed_Z.
  assert (Hf : (4 <= 6)%nat) by lia.
  exact (C1_scenario_A main_context 6 Hg Hf).
Defined.

(** ** Jumps *)

Lemma jump_spec (m : Machine) (s : list Value) (dest : Value) :
  stack (evm m) = s ++ [dest] -> 8 <= gas (evm m) ->
  jump 8 m =
    (Ok tt,
     set_pc (uint64 (BigInt.Uint64 (Value_Value dest) - 1))
       (set_stack s (set_gas (uint64 (gas (evm m) - 8)) m))).
Proof.
  intros Hs Hg. unfold jump, bind. rewrite useGas_ok' by exact Hg.
  rewrite (evm_stack_pop_snoc _ s dest) by exact Hs. reflexivity.
Qed.

Lemma jumpi_taken_spec (m : Machine) (s : list Value) (dest condition : Value) :
  stack (evm m) = s ++ [dest; condition] -> Value_Value condition <> 0 ->
  10 <= gas (evm m) ->
  jumpi 10 m =
    (Ok tt,
     set_pc (uint64 (BigInt.Uint64 (Value_Value dest) - 1))
       (set_stack s (set_gas (uint64 (gas (evm m) - 10)) m))).
Proof.
  intros Hs Hc Hg. unfold jumpi, bind. rewrite useGas_ok' by exact Hg.
  rewrite (evm_stack_pop_snoc _ (s ++ [dest]) condition)
    by (cbn; rewrite Hs, <- app_assoc; reflexivity).
  rewrite (evm_stack_pop_snoc _ s dest) by reflexivity.
  unfold BigInt.Sign.
  destruct (Z.eqb_spec (Z.sgn (Value_Value condition)) 0) as [E|_].
  - exfalso. apply Hc. apply Z.sgn_null_iff. exact E.
  - reflexivity.
Qed.

Lemma jump_pc_of_zero : uint64 (BigInt.Uint64 0 - 1) = 2 ^ 64 - 1.
Proof. reflexivity. Qed.

Lemma pc_increment_wraps : uint64 (2 ^ 64 - 1 + 1) = 0.
Proof. reflexivity. Qed.

(** C9: JUMP, or JUMPI with a non-zero condition, on destination 0 sets the
    program counter to 0 - 1 in [uint64], that is 2^64 - 1.  The driver loop
    then executes [pc++], which wraps it to 0, and since the code is not empty
    the loop goes on at code offset 0: the jump to destination 0 is taken. *)
Theorem C9_jump_to_zero (fuel l : nat) (c : Contract) (m : Machine)
    (op : byte) (s : list Value) (dest : Value) :
  heap m !! l = Some c ->
  pc (evm m) < len (Code c) ->
  Code c !! Z.to_nat (pc (evm m)) = Some op ->
  Value_Value dest = 0 ->
  (op = x56 /\ stack (evm m) = s ++ [dest] /\ 8 <= gas (evm m)) \/
  (op = x57 /\ 10 <= gas (evm m) /\
   exists condition,
     stack (evm m) = s ++ [dest; condition] /\ Value_Value condition <> 0) ->
  exists m1,
    ExecuteOpcode fuel op m = (Ok tt, m1) /\
    pc (evm m1) = 2 ^ 64 - 1 /\
    stack (evm m1) = s /\
    heap m1 = heap m /\
    mainLoop (S fuel) l m = mainLoop fuel l (set_pc 0 m1) /\
    pc (evm (set_pc 0 m1)) < len (Code c).
Proof.
  intros Hl Hpc Hop Hd Hcase.
  pose proof (len_nonneg (Code c)) as Hn.
  assert (Hstep : forall m1,
            ExecuteOpcode fuel op m = (Ok tt, m1) -> pc (evm m1) = 2 ^ 64 - 1 ->
            mainLoop (S fuel) l m = mainLoop fuel l (set_pc 0 m1)).
  { intros m1 Hrun Hp. rewrite (mainLoop_step _ _ c _ op Hl Hpc Hop).
    unfold bind at 1. rewrite Hrun. unfold bind at 1, modify.
    rewrite Hp, pc_increment_wraps. reflexivity. }
  assert (Hlookup : is_Some (Code c !! Z.to_nat (pc (evm m)))) by (rewrite Hop; eauto).
  apply lookup_lt_is_Some in Hlookup.
  assert (Hpos : 0 < len (Code c)) by (unfold len; lia).
  destruct Hcase as [(-> & Hs & Hg) | (-> & Hg & condition & Hs & Hc)].
  - eexists. split; [|split; [|split; [|split; [|split]]]].
    + rewrite ExecuteOpcode_fuel_irrelevant by discriminate.
      change (ExecuteOpcode 0 x56) with (jump 8).
      apply (jump_spec m s dest Hs Hg).
    + cbn [pc evm set_pc]. rewrite Hd. apply jump_pc_of_zero.
    + reflexivity.
    + reflexivity.
    + apply Hstep.
      * rewrite ExecuteOpcode_fuel_irrelevant by discriminate.
        change (ExecuteOpcode 0 x56) with (jump 8).
        apply (jump_spec m s dest Hs Hg).
      * cbn [pc evm set_pc]. rewrite Hd. apply jump_pc_of_zero.
    + exact Hpos.
  - eexists. split; [|split; [|split; [|split; [|split]]]].
    + rewrite ExecuteOpcode_fuel_irrelevant by discriminate.
      change (ExecuteOpcode 0 x57) with (jumpi 10).
      apply (jumpi_taken_spec m s dest condition Hs Hc Hg).
    + cbn [pc evm set_pc]. rewrite Hd. apply jump_pc_of_zero.
    + reflexivity.
    + reflexivity.
    + apply Hstep.
      * rewrite ExecuteOpcode_fuel_irrelevant by discriminate.
        change (ExecuteOpcode 0 x57) with (jumpi 10).
        apply (jumpi_taken_spec m s dest condition Hs Hc Hg).
      * cbn [pc evm set_pc]. rewrite Hd. apply jump_pc_of_zero.
    + exact Hpos.
Qed.

Lemma C9_jump_to_zero_witness :
  let m := set_pc 2 (set_stack [mkValue Uint256 0]
                       (root (mkContext 1 1 [] 27 1) [x60; x00; x56])) in
  exists m1,
    ExecuteOpcode 5 x56 m = (Ok tt, m1) /\
    pc (evm m1) = 2 ^ 64 - 1 /\
    mainLoop 6 0 m = mainLoop 5 0 (set_pc 0 m1).
Proof.
  intros m.
  assert (Hpc : pc (evm m) < len [x60; x00; x56]) by closed_Z.
  assert (Hg : 8 <= gas (evm m)) by closed_Z.
  destruct (C9_jump_to_zero 5 0
              (mkContract (replicate 20 x00) [x60; x00; x56] ∅) m x56 []
              (mkValue Uint256 0) eq_refl Hpc eq_refl eq_refl
              (or_introl (conj eq_refl (conj eq_refl Hg))))
    as (m1 & H1 & H2 & _ & _ & H5 & _).
  exists m1. auto.
Defined.

(** The claim C9 as stated fails on the driver loop.  The frame below is
    about to execute JUMP with destination 0 on the code PUSH1 0, JUMP with
    27 units of gas.  The jump sets the program counter to 2^64 - 1, but the
    loop does not end there as an implicit stop: it goes on at offset 0,
    pushes 0 again, jumps again, pushes again, and only breaks when the third
    JUMP cannot be paid for. *)
Lemma C9_counterexample :
  let m := set_pc 2 (set_stack [mkValue Uint256 0]
                       (root (mkContext 1 1 [] 27 1) [x60; x00; x56])) in
  pc (evm (snd (jump 8 m))) = 2 ^ 64 - 1 /\
  mainLoop 7 0 m <> (Ok tt, snd (jump 8 m)) /\
  fst (mainLoop 7 0 m) = Err OutOfGas /\
  stack (evm (snd (mainLoop 7 0 m))) = [mkValue Uint256 0] /\
  gas (evm (snd (mainLoop 7 0 m))) = 27 - 8 - 3 - 8 - 3 /\
  pc (evm (snd (mainLoop 7 0 m))) = 2.
Proof.
  intros m.
  split; [vm_compute; reflexivity|].
  split; [vm_compute; discriminate|].
  repeat split; vm_compute; reflexivity.
Qed.

(** ** RETURN *)

(** A RETURN that succeeds hands [nil] to the driver loop, which goes on
    with the opcode that follows. *)
Lemma returnOp_loop_goes_on (fuel l : nat) (c : Contract) (m m1 : Machine) :
  heap m !! l = Some c ->
  pc (evm m) < len (Code c) ->
  Code c !! Z.to_nat (pc (evm m)) = Some xf3 ->
  returnOp 0 m = (Ok tt, m1) ->
  mainLoop (S fuel) l m = mainLoop fuel l (set_pc (uint64 (pc (evm m1) + 1)) m1).
Proof.
  intros Hl Hpc Hop Hrun. rewrite (mainLoop_step _ _ c _ xf3 Hl Hpc Hop).
  unfold bind at 1. rewrite ExecuteOpcode_fuel_irrelevant by discriminate.
  change (ExecuteOpcode 0 xf3) with (returnOp 0). rewrite Hrun.
  reflexivity.
Qed.

(** C4: RETURN is specified as a terminal transition.  On the code
    PUSH1 0, PUSH1 0, RETURN, PUSH1 7 the driver loop executes RETURN
    (the return data becomes the empty range of memory) and then goes on: it
    executes the PUSH1 that follows and leaves through the loop condition
    with 7 on the stack, whatever fuel beyond 8 the loop is given.  The same
    code with REVERT in the place of RETURN breaks out of the loop at that
    opcode, as STOP does. *)
Theorem C4_return_does_not_stop_the_loop (n : nat) :
  let m := root (mkContext 1 1 [] 30 1) [x60; x00; x60; x00; xf3; x60; x07] in
  let m' := root (mkContext 1 1 [] 30 1) [x60; x00; x60; x00; xfd; x60; x07] in
  fst (mainLoop (8 + n) 0 m) = Ok tt /\
  stack (evm (snd (mainLoop (8 + n) 0 m))) = [mkValue Uint256 7] /\
  returnData (evm (snd (mainLoop (8 + n) 0 m))) = [] /\
  pc (evm (snd (mainLoop (8 + n) 0 m))) = 7 /\
  gas (evm (snd (mainLoop (8 + n) 0 m))) = 30 - 3 - 3 - 0 - 3 /\
  fst (mainLoop (8 + n) 0 m') = Err RevertWithData /\
  stack (evm (snd (mainLoop (8 + n) 0 m'))) = [] /\
  pc (evm (snd (mainLoop (8 + n) 0 m'))) = 4.
Proof.
  intros m m'.
  rewrite (mainLoop_more_fuel 8 n 0 m) by (vm_compute; discriminate).
  rewrite (mainLoop_more_fuel 8 n 0 m') by (vm_compute; discriminate).
  repeat split; vm_compute; reflexivity.
Qed.

(** ** CALL *)

Lemma popCallOperands_spec (m : Machine) (s : list Value)
    (g a v ro rs ao az : Value) :
  stack (evm m) = s ++ [g; a; v; ro; rs; ao; az] ->
  popCallOperands m = (Ok (mkCallOperands az ao rs ro v a g), set_stack s m).
Proof.
  intros Hs. unfold popCallOperands, bind.
  rewrite (evm_stack_pop_snoc _ (s ++ [g; a; v; ro; rs; ao]) az)
    by (rewrite Hs, <- app_assoc; reflexivity).
  rewrite (evm_stack_pop_snoc _ (s ++ [g; a; v; ro; rs]) ao)
    by (cbn; rewrite <- app_assoc; reflexivity).
  rewrite (evm_stack_pop_snoc _ (s ++ [g; a; v; ro]) rs)
    by (cbn; rewrite <- app_assoc; reflexivity).
  rewrite (evm_stack_pop_snoc _ (s ++ [g; a; v]) ro)
    by (cbn; rewrite <- app_assoc; reflexivity).
  rewrite (evm_stack_pop_snoc _ (s ++ [g; a]) v)
    by (cbn; rewrite <- app_assoc; reflexivity).
  rewrite (evm_stack_pop_snoc _ (s ++ [g]) a)
    by (cbn; rewrite <- app_assoc; reflexivity).
  rewrite (evm_stack_pop_snoc _ s g) by reflexivity.
  reflexivity.
Qed.

(** C5: CALL pops its seven operands in this order: args_size first (the
    top of the stack), then args_offset, ret_size, ret_offset, value, address,
    and gas_limit last.  On a stack that ends in gas_limit, address, value,
    ret_offset, ret_size, args_offset, args_size (top), the seven pops bind
    each operand to the variable of that name and leave the rest of the
    stack; the first pop alone yields args_size. *)
Theorem C5_call_pop_order (m : Machine) (s : list Value)
    (gas_limit address_ value_ ret_offset ret_size args_offset args_size : Value) :
  let operands :=
    [gas_limit; address_; value_; ret_offset; ret_size; args_offset; args_size] in
  popCallOperands (set_stack (s ++ operands) m) =
    (Ok {| argsSize := args_size; argsOffset := args_offset;
           retSize := ret_size; retOffset := ret_offset;
           value := value_; address := address_; gasLimit := gas_limit |},
     set_stack s m) /\
  evm_stack_pop (set_stack (s ++ operands) m) =
    (Ok args_size,
     set_stack (s ++ [gas_limit; address_; value_; ret_offset; ret_size;
                      args_offset]) m).
Proof.
  intros operands. split.
  - rewrite (popCallOperands_spec _ s gas_limit address_ value_ ret_offset
               ret_size args_offset args_size) by reflexivity.
    reflexivity.
  - rewrite (evm_stack_pop_snoc _
               (s ++ [gas_limit; address_; value_; ret_offset; ret_size;
                      args_offset]) args_size)
      by (cbn; rewrite <- app_assoc; reflexivity).
    reflexivity.
Qed.

(** The claim C5 as stated fails: on a stack whose top is 1 and whose
    seventh value from the top is 7, the first pop of CALL yields 1 and binds
    it to args_size, not to gas_limit; gas_limit receives the value popped
    last.  With the operands laid out as the claim orders them (gas_limit 5 on
    top, zero sizes and offsets at the bottom) CALL reads 5 as args_size and
    fails on the memory load; laid out the other way round, gas_limit at the
    bottom, the same CALL succeeds. *)
Lemma C5_counterexample :
  let v := mkValue Uint256 in
  let m := set_stack [v 7; v 6; v 5; v 4; v 3; v 2; v 1]
             (root (mkContext 1 1 [] 100 1) [xf1]) in
  (exists o m',
     popCallOperands m = (Ok o, m') /\
     gasLimit o = v 7 /\ gasLimit o <> v 1 /\ argsSize o = v 1) /\
  let world := register (mkContract (copy (replicate 20 x00) [xaa]) [] ∅)
                 (root (mkContext 1 1 [] 100 1) [xf1]) in
  let claimed := set_stack [v 0; v 0; v 0; v 0; v 0; v 170; v 5] world in
  let actual := set_stack [v 5; v 170; v 0; v 0; v 0; v 0; v 0] world in
  fst (ExecuteOpcode 3 xf1 claimed) = Err MemoryOutOfBounds /\
  fst (ExecuteOpcode 3 xf1 actual) = Ok tt.
Proof.
  intros v m. split.
  - eexists. eexists. split; [vm_compute; reflexivity|].
    cbn. repeat split. discriminate.
  - split; vm_compute; reflexivity.
Qed.

Section CallSteps.

Variable exec : byte -> M unit.
Variables (steps : nat) (m : Machine) (s : list Value).
Variables (g a v ro rs ao az : Value) (args : list byte) (l : nat).

Hypothesis Hstack : stack (evm m) = s ++ [g; a; v; ro; rs; ao; az].
Hypothesis Hgas : 40 <= gas (evm m).
Hypothesis Hargs :
  Memory.load (memory (evm m)) (BigInt.Uint64 (Value_Value ao))
    (BigInt.Uint64 (Value_Value az)) = Ok args.
Hypothesis Htarget :
  contracts m !! copy (replicate 20 x00) (BigInt.Bytes (Value_Value a)) = Some l.

(** The caller once gas is charged and the operands are popped. *)
Let m0 : Machine := set_stack s (set_gas (uint64 (gas (evm m) - 40)) m).

(** Up to the nested loop, [call] only charges gas, pops, and looks up the
    target; what follows depends on how the callee's loop ends. *)
Lemma call_enters_callee :
  call exec steps 40 m =
    match calleeLoop exec steps l (set_evm (callee_frame m l g) m0) with
    | (Ok _, mc) =>
        match Memory.load (memory (evm mc)) (BigInt.Uint64 (Value_Value ro))
                (BigInt.Uint64 (Value_Value rs)) with
        | Ok data => (Ok tt, set_returnData data (set_evm (evm m0) mc))
        | Err e => (Err e, set_evm (evm m0) mc)
        | Panic => (Panic, set_evm (evm m0) mc)
        | OutOfFuel => (OutOfFuel, set_evm (evm m0) mc)
        end
    | (Err e, mc) => (Err e, set_evm (evm m0) mc)
    | (Panic, mc) => (Panic, set_evm (evm m0) mc)
    | (OutOfFuel, mc) => (OutOfFuel, set_evm (evm m0) mc)
    end.
Proof.
  unfold call. unfold bind at 1. rewrite useGas_ok' by exact Hgas.
  unfold bind at 1.
  rewrite (popCallOperands_spec _ s g a v ro rs ao az) by exact Hstack.
  fold m0. cbn [argsOffset argsSize retOffset retSize address gasLimit].
  unfold bind at 1. unfold evm_memory_load.
  change (memory (evm m0)) with (memory (evm m)). rewrite Hargs.
  unfold bind at 1. unfold get.
  change (contracts m0) with (contracts m). rewrite Htarget.
  unfold bind at 1. unfold in_frame.
  change (callee_frame m0 l g) with (callee_frame m l g).
  destruct (calleeLoop exec steps l (set_evm (callee_frame m l g) m0))
    as [[[]|e| |] mc]; reflexivity.
Qed.

(** An error that ends the callee's loop is what [call] returns. *)
Lemma call_propagates_callee_error (e : Error) (mc : Machine) :
  calleeLoop exec steps l (set_evm (callee_frame m l g) m0) = (Err e, mc) ->
  call exec steps 40 m = (Err e, set_evm (evm m0) mc).
Proof. intros H. rewrite call_enters_callee, H. reflexivity. Qed.

(** When the callee's loop ends through its loop condition, the range
    [ret_offset, ret_offset + ret_size) of the callee's memory becomes the
    caller's return data; the caller's memory is not written. *)
Lemma call_stores_callee_memory (mc : Machine) (data : list byte) :
  calleeLoop exec steps l (set_evm (callee_frame m l g) m0) = (Ok tt, mc) ->
  Memory.load (memory (evm mc)) (BigInt.Uint64 (Value_Value ro))
    (BigInt.Uint64 (Value_Value rs)) = Ok data ->
  call exec steps 40 m = (Ok tt, set_returnData data (set_evm (evm m0) mc)).
Proof. intros H Hd. rewrite call_enters_callee, H, Hd. reflexivity. Qed.

End CallSteps.

(** In the nested loop a STOP of the callee is an error like any other. *)
Lemma calleeLoop_stop (exec : byte -> M unit) (n l : nat) (c : Contract)
    (mc : Machine) :
  exec x00 = throw STOP ->
  heap mc !! l = Some c ->
  pc (evm mc) < len (Code c) ->
  Code c !! Z.to_nat (pc (evm mc)) = Some x00 ->
  calleeLoop exec (S n) l mc = (Err STOP, mc).
Proof.
  intros Hex Hl Hpc Hop. cbn [calleeLoop]. unfold bind at 1. unfold deref.
  rewrite Hl. unfold bind at 1. unfold get.
  destruct (Z.ltb_spec (pc (evm mc)) (len (Code c))); [|lia].
  unfold bind at 1. unfold index. rewrite Hop.
  unfold bind at 1. rewrite Hex. reflexivity.
Qed.

(** In the nested loop a RETURN that succeeds is followed by the same
    RETURN: the handler returns nil and nothing advances the program
    counter. *)
Lemma calleeLoop_return_repeats (exec : byte -> M unit) (n l : nat)
    (c : Contract) (mc mc1 : Machine) :
  exec xf3 = returnOp 0 ->
  heap mc !! l = Some c ->
  pc (evm mc) < len (Code c) ->
  Code c !! Z.to_nat (pc (evm mc)) = Some xf3 ->
  returnOp 0 mc = (Ok tt, mc1) ->
  calleeLoop exec (S n) l mc = calleeLoop exec n l mc1.
Proof.
  intros Hex Hl Hpc Hop Hrun. cbn [calleeLoop]. unfold bind at 1. unfold deref.
  rewrite Hl. unfold bind at 1. unfold get.
  destruct (Z.ltb_spec (pc (evm mc)) (len (Code c))); [|lia].
  unfold bind at 1. unfold index. rewrite Hop.
  unfold bind at 1. rewrite Hex, Hrun. reflexivity.
Qed.

(** C3: a CALL whose callee halts on STOP is specified to succeed with the
    caller's return data set from the callee's memory.  In main.go the STOP
    of the callee is an error of [ExecuteOpcode], and the nested loop returns
    every error: whenever the target's code starts with STOP, CALL fails with
    the STOP error and the caller's return data is left as it was (the
    operands are popped and the 40 gas stay charged). *)
Theorem C3_callee_stop_fails_the_call (fuel : nat) (m : Machine)
    (s : list Value) (g a v ro rs ao az : Value) (args : list byte)
    (l : nat) (c : Contract) :
  stack (evm m) = s ++ [g; a; v; ro; rs; ao; az] ->
  40 <= gas (evm m) ->
  Memory.load (memory (evm m)) (BigInt.Uint64 (Value_Value ao))
    (BigInt.Uint64 (Value_Value az)) = Ok args ->
  contracts m !! copy (replicate 20 x00) (BigInt.Bytes (Value_Value a)) = Some l ->
  heap m !! l = Some c ->
  Code c !! 0%nat = Some x00 ->
  ExecuteOpcode (S fuel) xf1 m =
    (Err STOP, set_stack s (set_gas (uint64 (gas (evm m) - 40)) m)) /\
  returnData (evm (snd (ExecuteOpcode (S fuel) xf1 m))) = returnData (evm m).
Proof.
  intros Hs Hg Hargs Ht Hl Hop.
  assert (Hrun : ExecuteOpcode (S fuel) xf1 m =
            (Err STOP, set_stack s (set_gas (uint64 (gas (evm m) - 40)) m))).
  { cbn [ExecuteOpcode].
    rewrite (call_propagates_callee_error _ (S fuel) m s g a v ro rs ao az args l
               Hs Hg Hargs Ht STOP
               (set_evm (callee_frame m l g)
                  (set_stack s (set_gas (uint64 (gas (evm m) - 40)) m)))).
    - reflexivity.
    - apply (calleeLoop_stop _ fuel l c).
      + destruct fuel; reflexivity.
      + exact Hl.
      + assert (Hlt : (0 < length (Code c))%nat)
          by (apply lookup_lt_is_Some; rewrite Hop; eauto).
        cbn. unfold len. lia.
      + exact Hop. }
  split; [exact Hrun|]. rewrite Hrun. reflexivity.
Qed.

Lemma C3_callee_stop_fails_the_call_witness :
  let v := mkValue Uint256 in
  let m := set_stack [v 100; v 170; v 0; v 0; v 0; v 0; v 0]
             (register (mkContract (copy (replicate 20 x00) [xaa]) [x00] ∅)
                (root (mkContext 1 1 [] 100 1) [xf1; x60; x07])) in
  ExecuteOpcode 3 xf1 m = (Err STOP, set_stack [] (set_gas 60 m)) /\
  fst (mainLoop 5 0 m) = Err STOP /\
  stack (evm (snd (mainLoop 5 0 m))) = [] /\
  pc (evm (snd (mainLoop 5 0 m))) = 0.
Proof.
  intros v m.
  assert (Hg : 40 <= gas (evm m)) by closed_Z.
  destruct (C3_callee_stop_fails_the_call 2 m [] (v 100) (v 170) (v 0) (v 0)
              (v 0) (v 0) (v 0) [] 1
              (mkContract (copy (replicate 20 x00) [xaa]) [x00] ∅)
              eq_refl Hg eq_refl eq_refl eq_refl eq_refl) as [Hrun _].
  split; [exact Hrun|].
  repeat split; vm_compute; reflexivity.
Defined.

(** * Further properties of the interpreter *)

(** ** Invariants of the interpreter *)

Lemma hoare_bind {A B} (P Q : Machine -> Prop) (c : M A) (k : A -> M B) :
  hoare P c Q -> (forall a, preserves Q (k a)) -> hoare P (bind c k) Q.
Proof.
  intros Hc Hk m r m' HP H. unfold bind in H.
  destruct (c m) as [[a|e| |] m1] eqn:E; pose proof (Hc _ _ _ HP E) as HP1.
  - exact (Hk a _ _ _ HP1 H).
  - injection H as <- <-. exact HP1.
  - injection H as <- <-. exact HP1.
  - injection H as <- <-. exact HP1.
Qed.

Lemma preserves_bind {A B} (P : Machine -> Prop) (c : M A) (k : A -> M B) :
  preserves P c -> (forall a, preserves P (k a)) -> preserves P (bind c k).
Proof. apply hoare_bind. Qed.

Lemma preserves_reads {A} (P : Machine -> Prop) (c : M A) :
  reads c -> preserves P c.
Proof.
  intros Hc m r m' HP H. pose proof (Hc m) as E. rewrite H in E.
  cbn in E. subst m'. exact HP.
Qed.

Lemma reads_ret {A} (a : A) : reads (ret a).
Proof. intros m. reflexivity. Qed.

Lemma reads_throw {A} (e : Error) : reads (@throw A e).
Proof. intros m. reflexivity. Qed.

Lemma reads_out_of_fuel {A} : reads (@out_of_fuel A).
Proof. intros m. reflexivity. Qed.

Lemma reads_get : reads get.
Proof. intros m. reflexivity. Qed.

Lemma reads_load (offset size : Z) : reads (evm_memory_load offset size).
Proof. intros m. reflexivity. Qed.

Lemma reads_deref (p : option nat) : reads (deref p).
Proof.
  intros m. unfold deref. destruct p as [l|]; [|reflexivity].
  destruct (heap m !! l); reflexivity.
Qed.

Lemma reads_index {A} (l : list A) (i : Z) : reads (index l i).
Proof. intros m. unfold index. destruct (l !! Z.to_nat i); reflexivity. Qed.

Lemma reads_const {A} (r : result A) : reads (fun m => (r, m)).
Proof. intros m. reflexivity. Qed.

Lemma preserves_evm_contract (P : Machine -> Prop) : preserves P evm_contract.
Proof.
  unfold evm_contract. apply preserves_bind.
  - apply preserves_reads, reads_get.
  - intros m. apply preserves_reads, reads_deref.
Qed.

Lemma preserves_modify (P : Machine -> Prop) (f : Machine -> Machine) :
  (forall m, P m -> P (f m)) -> preserves P (modify f).
Proof. intros Hf m r m' HP H. injection H as <- <-. apply Hf, HP. Qed.

Ltac pres_read :=
  apply preserves_reads;
  first [ apply reads_ret | apply reads_throw | apply reads_out_of_fuel
        | apply reads_get | apply reads_load | apply reads_deref
        | apply reads_index | apply reads_const ].

(** The nested loop keeps what the opcodes it runs keep. *)
Lemma preserves_calleeLoop (R : Machine -> Prop) (exec : byte -> M unit)
    (n l : nat) :
  (forall op, preserves R (exec op)) -> preserves R (calleeLoop exec n l).
Proof.
  intros Hex. induction n as [|n IH]; cbn [calleeLoop]; [pres_read|].
  apply preserves_bind; [pres_read|]. intros c.
  apply preserves_bind; [pres_read|]. intros m.
  destruct (pc (evm m) <? len (Code c)); [|pres_read].
  apply preserves_bind; [pres_read|]. intros op.
  apply preserves_bind; [apply Hex|]. intros _. exact IH.
Qed.

Lemma gasCostOf_nonneg (opcode : byte) (cost : Z) :
  gasCostOf opcode = Some cost -> 0 <= cost.
Proof. destruct opcode; cbn; intros [= <-] || discriminate; lia. Qed.

Lemma gasCostOf_None (fuel : nat) (opcode : byte) :
  gasCostOf opcode = None -> reads (ExecuteOpcode fuel opcode).
Proof.
  intros H. pose proof (dispatch_charges_first fuel opcode) as Hd.
  rewrite H in Hd. destruct Hd as [e ->]. apply reads_throw.
Qed.

Section Invariant.

(** [P] holds before the opcode, [Q] from its gas charge on, and [Qc] in
    the frames it calls. *)
Variables P Q Qc : Machine -> Prop.
Variable cost0 : Z.

Hypothesis PQ_useGas : hoare P (useGas cost0) Q.
Hypothesis Q_push : forall v, preserves Q (evm_stack_push v).
Hypothesis Q_pop : preserves Q evm_stack_pop.
Hypothesis Q_pc : forall p m, Q m -> Q (set_pc p m).
Hypothesis Q_returnData : forall d m, Q m -> Q (set_returnData d m).
Hypothesis Q_logs : forall log m, Q m -> Q (set_logs (logs (evm m) ++ [log]) m).
Hypothesis Q_swap :
  forall s m, length s = length (stack (evm m)) -> Q m -> Q (set_stack s m).
Hypothesis Q_storage_write : forall k v, preserves Q (storage_write k v).
Hypothesis Q_alloc :
  forall c addr m,
    Q m ->
    Q (set_contracts (<[addr := length (heap m)]> (contracts m))
         (set_heap (heap m ++ [c]) m)).
Hypothesis Q_enter : forall callee m, Q m -> Qc (set_evm callee m).
Hypothesis Q_leave : forall m mc, Q m -> Qc mc -> Q (set_evm (evm m) mc).

Ltac pres :=
  repeat first
    [ apply preserves_bind; [|intros ?]
    | apply Q_push
    | apply Q_pop
    | apply preserves_evm_contract
    | pres_read
    | apply preserves_modify; intros ? ?;
      first [apply Q_pc | apply Q_returnData | apply Q_logs]; assumption
    | match goal with
      | |- preserves _ (if ?b then _ else _) => destruct b
      | |- preserves _ (match ?x with _ => _ end) => destruct x
      end ].

Ltac charged := apply (hoare_bind _ _ _ _ PQ_useGas); intros _.

Lemma hoare_binaryOperation op : hoare P (binaryOperation op cost0) Q.
Proof. unfold binaryOperation. charged. pres. Qed.

Lemma hoare_compareOperation op : hoare P (compareOperation op cost0) Q.
Proof. unfold compareOperation. charged. pres. Qed.

Lemma hoare_sload : hoare P (sload cost0) Q.
Proof. unfold sload. charged. pres. Qed.

Lemma hoare_sstore : hoare P (sstore cost0) Q.
Proof. unfold sstore. charged. pres. apply Q_storage_write. Qed.

Lemma hoare_jump : hoare P (jump cost0) Q.
Proof. unfold jump. charged. pres. Qed.

Lemma hoare_jumpi : hoare P (jumpi cost0) Q.
Proof. unfold jumpi. charged. pres. Qed.

Lemma hoare_push size : hoare P (push size cost0) Q.
Proof. unfold push. charged. pres. Qed.

Lemma hoare_dup pos : hoare P (dup pos cost0) Q.
Proof. unfold dup. charged. pres. Qed.

Lemma hoare_swap pos : hoare P (swap pos cost0) Q.
Proof.
  unfold swap. charged.
  intros m r m' HP Hrun. unfold bind, get, index, modify, throw in Hrun.
  destruct (len (stack (evm m)) <=? pos); [injection Hrun as <- <-; exact HP|].
  destruct (stack (evm m) !! _); [|injection Hrun as <- <-; exact HP].
  destruct (stack (evm m) !! _); injection Hrun as <- <-; [|exact HP].
  apply Q_swap; [|exact HP]. rewrite !length_insert. reflexivity.
Qed.

Lemma preserves_popTopics n : preserves Q (popTopics n).
Proof. induction n as [|n IH]; cbn [popTopics]; pres. exact IH. Qed.

Lemma preserves_append_log log :
  preserves Q (bind get (fun m => modify (set_logs (logs (evm m) ++ [log])))).
Proof.
  intros m r m' HP H. unfold bind, get, modify in H. injection H as <- <-.
  apply Q_logs, HP.
Qed.

Lemma hoare_log topicCount : hoare P (log topicCount cost0) Q.
Proof.
  unfold log. charged.
  apply preserves_bind; [apply Q_pop | intros size].
  apply preserves_bind; [apply Q_pop | intros offset].
  apply preserves_bind; [pres_read | intros data].
  apply preserves_bind; [apply preserves_popTopics | intros topics].
  apply preserves_bind; [apply preserves_evm_contract | intros c].
  apply preserves_append_log.
Qed.

Lemma hoare_create : hoare P (create cost0) Q.
Proof.
  unfold create. charged. pres.
  apply preserves_modify. intros m HP. apply Q_alloc, HP.
Qed.

Lemma hoare_returnOp : hoare P (returnOp cost0) Q.
Proof. unfold returnOp. charged. pres. Qed.

Lemma hoare_revert : hoare P (revert cost0) Q.
Proof. unfold revert. charged. pres. Qed.

Lemma preserves_in_frame {A} (callee : EVM) (c : M A) :
  preserves Qc c -> preserves Q (in_frame callee c).
Proof.
  intros Hc m r m' HP H. unfold in_frame in H.
  destruct (c (set_evm callee m)) as [[a|e| |] mc] eqn:E;
    injection H as <- <-;
    apply Q_leave; first [exact HP | exact (Hc _ _ _ (Q_enter callee m HP) E)].
Qed.

Lemma preserves_popCallOperands : preserves Q popCallOperands.
Proof. unfold popCallOperands. pres. Qed.

Lemma hoare_call exec steps :
  (forall op, preserves Qc (exec op)) -> hoare P (call exec steps cost0) Q.
Proof.
  intros Hex. unfold call. charged.
  apply preserves_bind; [apply preserves_popCallOperands|]. intros o.
  apply preserves_bind; [pres_read|]. intros args.
  apply preserves_bind; [pres_read|]. intros m.
  destruct (contracts m !! _); [|pres_read].
  apply preserves_bind;
    [apply preserves_in_frame, preserves_calleeLoop, Hex|]. intros r.
  pres.
Qed.

(** An opcode that costs [cost0] takes [P] to [Q], provided the opcodes of
    the frames it calls, run with less fuel, keep [Qc]. *)
Lemma hoare_ExecuteOpcode (fuel : nat) (opcode : byte) :
  gasCostOf opcode = Some cost0 ->
  (forall fuel' op, (fuel' < fuel)%nat -> preserves Qc (ExecuteOpcode fuel' op)) ->
  hoare P (ExecuteOpcode fuel opcode) Q.
Proof.
  intros Hcost Hnested.
  destruct opcode; cbn [gasCostOf] in Hcost; try discriminate Hcost;
    injection Hcost as E;
    rewrite ?(ExecuteOpcode_fuel_irrelevant fuel) by discriminate;
    cbn [ExecuteOpcode];
    first [ rewrite E;
            first [ apply hoare_binaryOperation | apply hoare_compareOperation
                  | apply hoare_sload | apply hoare_sstore | apply hoare_jump
                  | apply hoare_jumpi | apply hoare_push | apply hoare_dup
                  | apply hoare_swap | apply hoare_log | apply hoare_create
                  | apply hoare_returnOp | apply hoare_revert ]
          | idtac ].
  destruct fuel as [|fuel]; cbn [ExecuteOpcode]; rewrite E; apply hoare_call.
  - intros op. pres_read.
  - intros op. apply Hnested. lia.
Qed.

End Invariant.

Lemma storage_write_frame (k : string) (v : Value) (m : Machine) :
  evm (snd (storage_write k v m)) = evm m /\
  contracts (snd (storage_write k v m)) = contracts m /\
  length (heap (snd (storage_write k v m))) = length (heap m).
Proof.
  unfold storage_write. destruct (contract (evm m)) as [l|]; [|auto].
  destruct (heap m !! l); cbn; [|auto]. rewrite length_insert. auto.
Qed.

(** An assertion on the frame alone goes from [P] to [Q] through an opcode
    as soon as the gas charge takes it there and the stack, program counter,
    return data and log steps keep it: storage, registry and nested frames
    cannot touch it. *)
Lemma frame_hoare (P Q : Machine -> Prop) (cost0 : Z) :
  (forall m m', evm m = evm m' -> Q m -> Q m') ->
  hoare P (useGas cost0) Q ->
  (forall v, preserves Q (evm_stack_push v)) ->
  preserves Q evm_stack_pop ->
  (forall p m, Q m -> Q (set_pc p m)) ->
  (forall d m, Q m -> Q (set_returnData d m)) ->
  (forall log m, Q m -> Q (set_logs (logs (evm m) ++ [log]) m)) ->
  (forall s m, length s = length (stack (evm m)) -> Q m -> Q (set_stack s m)) ->
  forall fuel opcode,
    gasCostOf opcode = Some cost0 -> hoare P (ExecuteOpcode fuel opcode) Q.
Proof.
  intros Hframe Hgas Hpush Hpop Hpc Hret Hlogs Hswap fuel opcode Hcost.
  apply (hoare_ExecuteOpcode P Q (fun _ => True) cost0); try assumption.
  - intros k v m r m' HQ H. apply (Hframe m); [|exact HQ].
    pose proof (storage_write_frame k v m) as (E & _ & _).
    rewrite H in E. cbn in E. congruence.
  - intros c addr m HQ. apply (Hframe m); [reflexivity | exact HQ].
  - intros callee m _. exact I.
  - intros m mc HQ _. apply (Hframe m); [reflexivity | exact HQ].
  - intros fuel' op _ m r m' _ _. exact I.
Qed.

Lemma frame_invariant (Q : Machine -> Prop) :
  (forall m m', evm m = evm m' -> Q m -> Q m') ->
  (forall cost, 0 <= cost -> preserves Q (useGas cost)) ->
  (forall v, preserves Q (evm_stack_push v)) ->
  preserves Q evm_stack_pop ->
  (forall p m, Q m -> Q (set_pc p m)) ->
  (forall d m, Q m -> Q (set_returnData d m)) ->
  (forall log m, Q m -> Q (set_logs (logs (evm m) ++ [log]) m)) ->
  (forall s m, length s = length (stack (evm m)) -> Q m -> Q (set_stack s m)) ->
  forall fuel opcode, preserves Q (ExecuteOpcode fuel opcode).
Proof.
  intros Hframe Hgas Hpush Hpop Hpc Hret Hlogs Hswap fuel opcode.
  destruct (gasCostOf opcode) as [cost|] eqn:Hcost.
  - apply (frame_hoare Q Q cost); try assumption.
    apply Hgas. exact (gasCostOf_nonneg _ _ Hcost).
  - apply preserves_reads, gasCostOf_None, Hcost.
Qed.

(** An assertion on the contracts and the registry alone is kept by every
    opcode as soon as a storage write and an allocation keep it. *)
Lemma world_invariant (W : Machine -> Prop) :
  (forall m m', heap m = heap m' -> contracts m = contracts m' -> W m -> W m') ->
  (forall k v, preserves W (storage_write k v)) ->
  (forall c addr m,
     W m ->
     W (set_contracts (<[addr := length (heap m)]> (contracts m))
          (set_heap (heap m ++ [c]) m))) ->
  forall fuel opcode, preserves W (ExecuteOpcode fuel opcode).
Proof.
  intros Hworld Hwrite Halloc fuel.
  induction fuel as [fuel IH] using lt_wf_ind. intros opcode.
  destruct (gasCostOf opcode) as [cost|] eqn:Hcost;
    [|apply preserves_reads, gasCostOf_None, Hcost].
  apply (hoare_ExecuteOpcode W W W cost); try assumption.
  - intros m r m' HW H. unfold useGas in H.
    destruct (gas (evm m) <? cost); injection H as <- <-;
      [exact HW | apply (Hworld m); [reflexivity | reflexivity | exact HW]].
  - intros v m r m' HW H. unfold evm_stack_push in H.
    destruct (Stack.push (stack (evm m)) v) as [r0 s]. injection H as <- <-.
    apply (Hworld m); [reflexivity | reflexivity | exact HW].
  - intros m r m' HW H. unfold evm_stack_pop in H.
    destruct (Stack.pop (stack (evm m))) as [r0 s]. injection H as <- <-.
    apply (Hworld m); [reflexivity | reflexivity | exact HW].
  - intros p m HW. apply (Hworld m); [reflexivity | reflexivity | exact HW].
  - intros d m HW. apply (Hworld m); [reflexivity | reflexivity | exact HW].
  - intros log m HW. apply (Hworld m); [reflexivity | reflexivity | exact HW].
  - intros s m _ HW. apply (Hworld m); [reflexivity | reflexivity | exact HW].
  - intros callee m HW. apply (Hworld m); [reflexivity | reflexivity | exact HW].
  - intros m mc _ HW. apply (Hworld mc); [reflexivity | reflexivity | exact HW].
  - intros fuel' op Hlt. apply IH. exact Hlt.
Qed.

(** The driver loop keeps what every opcode and the increment of the
    program counter keep. *)
Lemma preserves_mainLoop (R : Machine -> Prop) (fuel l : nat) :
  (forall fuel' op, preserves R (ExecuteOpcode fuel' op)) ->
  (forall p m, R m -> R (set_pc p m)) ->
  preserves R (mainLoop fuel l).
Proof.
  intros Hex Hpc. induction fuel as [|fuel IH]; cbn [mainLoop]; [pres_read|].
  apply preserves_bind; [pres_read|]. intros c.
  apply preserves_bind; [pres_read|]. intros m.
  destruct (pc (evm m) <? len (Code c)); [|pres_read].
  apply preserves_bind; [pres_read|]. intros op.
  apply preserves_bind; [apply Hex|]. intros _.
  apply preserves_bind; [|intros _; exact IH].
  apply preserves_modify. intros m0 HR. apply Hpc, HR.
Qed.

Lemma preserves_snd {A} (R : Machine -> Prop) (c : M A) (m : Machine) :
  preserves R c -> R m -> R (snd (c m)).
Proof. intros Hc HR. destruct (c m) as [r m'] eqn:E. exact (Hc _ _ _ HR E). Qed.

(** *** What no opcode touches *)

Lemma identity_kept (m : Machine) (fuel : nat) (opcode : byte) :
  preserves (same_frame_identity m) (ExecuteOpcode fuel opcode).
Proof.
  apply frame_invariant; unfold same_frame_identity.
  - intros m1 m2 E H. rewrite <- E. exact H.
  - intros cost _ m1 r m2 H Hrun. unfold useGas in Hrun.
    destruct (gas (evm m1) <? cost); injection Hrun as <- <-; exact H.
  - intros v m1 r m2 H Hrun. unfold evm_stack_push in Hrun.
    destruct (Stack.push (stack (evm m1)) v). injection Hrun as <- <-. exact H.
  - intros m1 r m2 H Hrun. unfold evm_stack_pop in Hrun.
    destruct (Stack.pop (stack (evm m1))). injection Hrun as <- <-. exact H.
  - intros p m1 H. exact H.
  - intros d m1 H. exact H.
  - intros log m1 H. exact H.
  - intros s m1 _ H. exact H.
Qed.

(** X1: No opcode writes the memory of its frame, nor changes the contract the
    frame points to, its context or its depth; the driver loop, which only
    adds [pc++], does not either. *)
Theorem X1_memory_is_never_written (fuel l : nat) (opcode : byte) (m : Machine) :
  same_frame_identity m (snd (ExecuteOpcode fuel opcode m)) /\
  same_frame_identity m (snd (mainLoop fuel l m)).
Proof.
  assert (H0 : same_frame_identity m m) by (repeat split).
  split.
  - apply preserves_snd; [apply identity_kept | exact H0].
  - apply preserves_snd; [|exact H0].
    apply preserves_mainLoop; [intros; apply identity_kept|].
    intros p m1 H. exact H.
Qed.

(** *** The stack bound *)

Lemma stack_bound_kept (fuel : nat) (opcode : byte) :
  preserves stack_within_bound (ExecuteOpcode fuel opcode).
Proof.
  apply frame_invariant; unfold stack_within_bound, MaxStackDepth.
  - intros m1 m2 E H. rewrite <- E. exact H.
  - intros cost _ m1 r m2 H Hrun. unfold useGas in Hrun.
    destruct (gas (evm m1) <? cost); injection Hrun as <- <-; exact H.
  - intros v m1 r m2 H Hrun. unfold evm_stack_push, Stack.push, MaxStackDepth in Hrun.
    destruct (Z.leb_spec 1024 (len (stack (evm m1)))); injection Hrun as <- <-; cbn.
    + exact H.
    + rewrite len_app. unfold len at 2. cbn. lia.
  - intros m1 r m2 H Hrun. unfold evm_stack_pop, Stack.pop in Hrun.
    destruct (len (stack (evm m1)) =? 0); [injection Hrun as <- <-; exact H|].
    destruct (stack (evm m1) !! _); injection Hrun as <- <-; cbn; [|exact H].
    unfold len in *. rewrite length_take. lia.
  - intros p m1 H. exact H.
  - intros d m1 H. exact H.
  - intros log m1 H. exact H.
  - intros s m1 E H. cbn. unfold len in *. rewrite E. exact H.
Qed.

(** X2: A frame whose stack holds at most 1024 values holds at most 1024 values
    after any opcode, whatever its outcome, and after any run of the driver
    loop. *)
Theorem X2_stack_never_exceeds_bound (fuel l : nat) (opcode : byte) (m : Machine) :
  len (stack (evm m)) <= 1024 ->
  len (stack (evm (snd (ExecuteOpcode fuel opcode m)))) <= 1024 /\
  len (stack (evm (snd (mainLoop fuel l m)))) <= 1024.
Proof.
  intros H0. split.
  - apply (preserves_snd stack_within_bound); [apply stack_bound_kept | exact H0].
  - apply (preserves_snd stack_within_bound); [|exact H0].
    apply preserves_mainLoop; [intros; apply stack_bound_kept|].
    intros p m1 H. exact H.
Qed.

(** *** Gas *)

Lemma gas_bound_kept (g : Z) (fuel : nat) (opcode : byte) :
  g < 2 ^ 64 -> preserves (gas_within g) (ExecuteOpcode fuel opcode).
Proof.
  intros Hg. apply frame_invariant; unfold gas_within.
  - intros m1 m2 E H. rewrite <- E. exact H.
  - intros cost Hc m1 r m2 H Hrun. unfold useGas in Hrun.
    destruct (Z.ltb_spec (gas (evm m1)) cost); injection Hrun as <- <-; cbn.
    + exact H.
    + rewrite uint64_small by lia. lia.
  - intros v m1 r m2 H Hrun. unfold evm_stack_push in Hrun.
    destruct (Stack.push (stack (evm m1)) v). injection Hrun as <- <-. exact H.
  - intros m1 r m2 H Hrun. unfold evm_stack_pop in Hrun.
    destruct (Stack.pop (stack (evm m1))). injection Hrun as <- <-. exact H.
  - intros p m1 H. exact H.
  - intros d m1 H. exact H.
  - intros log m1 H. exact H.
  - intros s m1 _ H. exact H.
Qed.

(** X3: The gas of a frame never increases and never leaves the range of
    [uint64]: after any opcode and after any run of the driver loop it lies
    between 0 and what it was.  In particular a CALL hands gas to the callee
    without the caller getting any of it back. *)
Theorem X3_gas_never_increases (fuel l : nat) (opcode : byte) (m : Machine) :
  0 <= gas (evm m) < 2 ^ 64 ->
  0 <= gas (evm (snd (ExecuteOpcode fuel opcode m))) <= gas (evm m) /\
  0 <= gas (evm (snd (mainLoop fuel l m))) <= gas (evm m).
Proof.
  intros H0.
  assert (H1 : gas_within (gas (evm m)) m) by (unfold gas_within; lia).
  split.
  - apply (preserves_snd (gas_within (gas (evm m))));
      [apply gas_bound_kept; lia | exact H1].
  - apply (preserves_snd (gas_within (gas (evm m)))); [|exact H1].
    apply preserves_mainLoop; [intros; apply gas_bound_kept; lia|].
    intros p m1 H. exact H.
Qed.

(** X4: An opcode the frame can pay for costs the frame exactly its entry in
    the gas column, whether it then succeeds, fails or calls another frame:
    an error after the charge keeps the charge, and the gas limit a CALL gives
    its callee is not taken from the caller. *)
Theorem X4_opcode_charges_exactly_its_cost (fuel : nat) (opcode : byte)
    (cost : Z) (m : Machine) :
  gas (evm m) < 2 ^ 64 ->
  gasCostOf opcode = Some cost -> cost <= gas (evm m) ->
  gas (evm (snd (ExecuteOpcode fuel opcode m))) = gas (evm m) - cost.
Proof.
  intros Hg Hcost Hle.
  pose proof (gasCostOf_nonneg _ _ Hcost) as Hc.
  set (P := fun m' : Machine => m' = m).
  set (Q := fun m' : Machine => gas (evm m') = gas (evm m) - cost).
  assert (H : hoare P (ExecuteOpcode fuel opcode) Q).
  { apply (frame_hoare P Q cost); unfold P, Q; try assumption.
    - intros m1 m2 E H. rewrite <- E. exact H.
    - intros m1 r m2 -> Hrun. rewrite useGas_ok in Hrun by lia.
      injection Hrun as <- <-. reflexivity.
    - intros v m1 r m2 H Hrun. unfold evm_stack_push in Hrun.
      destruct (Stack.push (stack (evm m1)) v). injection Hrun as <- <-. exact H.
    - intros m1 r m2 H Hrun. unfold evm_stack_pop in Hrun.
      destruct (Stack.pop (stack (evm m1))). injection Hrun as <- <-. exact H.
    - intros p m1 H. exact H.
    - intros d m1 H. exact H.
    - intros log m1 H. exact H.
    - intros s m1 _ H. exact H. }
  destruct (ExecuteOpcode fuel opcode m) as [r m'] eqn:E.
  exact (H m r m' eq_refl E).
Qed.

(** *** Logs *)

Lemma logs_kept (L : list Log) (fuel : nat) (opcode : byte) :
  preserves (fun m => L `prefix_of` logs (evm m)) (ExecuteOpcode fuel opcode).
Proof.
  apply frame_invariant.
  - intros m1 m2 E H. rewrite <- E. exact H.
  - intros cost _ m1 r m2 H Hrun. unfold useGas in Hrun.
    destruct (gas (evm m1) <? cost); injection Hrun as <- <-; exact H.
  - intros v m1 r m2 H Hrun. unfold evm_stack_push in Hrun.
    destruct (Stack.push (stack (evm m1)) v). injection Hrun as <- <-. exact H.
  - intros m1 r m2 H Hrun. unfold evm_stack_pop in Hrun.
    destruct (Stack.pop (stack (evm m1))). injection Hrun as <- <-. exact H.
  - intros p m1 H. exact H.
  - intros d m1 H. exact H.
  - intros log m1 H. cbn. apply prefix_app_r. exact H.
  - intros s m1 _ H. exact H.
Qed.

(** X5: The logs of a frame are append-only: what was logged stays, in order, at
    the head of the list after any opcode and any run of the driver loop. *)
Theorem X5_logs_are_append_only (fuel l : nat) (opcode : byte) (m : Machine) :
  logs (evm m) `prefix_of` logs (evm (snd (ExecuteOpcode fuel opcode m))) /\
  logs (evm m) `prefix_of` logs (evm (snd (mainLoop fuel l m))).
Proof.
  split.
  - apply (preserves_snd (fun m' => logs (evm m) `prefix_of` logs (evm m')));
      [apply logs_kept | reflexivity].
  - apply (preserves_snd (fun m' => logs (evm m) `prefix_of` logs (evm m')));
      [|reflexivity].
    apply preserves_mainLoop; [intros; apply logs_kept|].
    intros p m1 H. exact H.
Qed.

(** *** Contracts and registry *)

Lemma contracts_kept_by_opcodes (h : list Contract) (fuel : nat) (opcode : byte) :
  preserves (contracts_kept h) (ExecuteOpcode fuel opcode).
Proof.
  apply world_invariant; unfold contracts_kept.
  - intros m1 m2 Eh _ H. rewrite <- Eh. exact H.
  - intros k v m1 r m2 H Hrun l c Hl. unfold storage_write in Hrun.
    destruct (contract (evm m1)) as [l0|]; [|injection Hrun as <- <-; auto].
    destruct (heap m1 !! l0) as [c0|] eqn:E0; injection Hrun as <- <-; [|auto].
    cbn. destruct (H l c Hl) as (c' & Hc' & Hcode & Haddr).
    destruct (decide (l0 = l)) as [->|Hne].
    + rewrite list_lookup_insert_eq by (apply lookup_lt_Some in E0; exact E0).
      eexists. split; [reflexivity|]. cbn. split; congruence.
    + rewrite list_lookup_insert_ne by exact Hne. eauto.
  - intros c0 addr m1 H l c Hl. cbn.
    destruct (H l c Hl) as (c' & Hc' & Hcode & Haddr).
    exists c'. split; [|auto]. apply lookup_app_l_Some. exact Hc'.
Qed.

(** X6: A contract, once allocated, keeps its location, its code and its
    address through every opcode, nested calls included, and through every run
    of the driver loop: opcodes only ever change a contract's storage, and no
    contract is ever removed. *)
Theorem X6_contract_code_is_immutable (fuel l0 : nat) (opcode : byte)
    (m : Machine) (l : nat) (c : Contract) :
  heap m !! l = Some c ->
  (exists c', heap (snd (ExecuteOpcode fuel opcode m)) !! l = Some c' /\
              Code c' = Code c /\ Contract_Address c' = Contract_Address c) /\
  (exists c', heap (snd (mainLoop fuel l0 m)) !! l = Some c' /\
              Code c' = Code c /\ Contract_Address c' = Contract_Address c).
Proof.
  intros Hl.
  assert (H0 : contracts_kept (heap m) m) by (intros l1 c1 H1; eauto).
  split.
  - apply (preserves_snd (contracts_kept (heap m)) _ m
             (contracts_kept_by_opcodes _ fuel opcode) H0 l c Hl).
  - refine (preserves_snd (contracts_kept (heap m)) _ m _ H0 l c Hl).
    apply preserves_mainLoop; [intros; apply contracts_kept_by_opcodes|].
    intros p m1 H. exact H.
Qed.

Lemma registry_sound_by_opcodes (r : gmap (list byte) nat) (fuel : nat)
    (opcode : byte) :
  preserves (registry_sound r) (ExecuteOpcode fuel opcode).
Proof.
  apply world_invariant; unfold registry_sound.
  - intros m1 m2 Eh Ec H. rewrite <- Eh, <- Ec. exact H.
  - intros k v m1 res m2 H Hrun.
    pose proof (storage_write_frame k v m1) as (_ & Ec & Eh).
    rewrite Hrun in Ec, Eh. cbn in Ec, Eh. rewrite Ec, Eh. exact H.
  - intros c0 addr m1 [Hkeys Hptr]. cbn. split.
    + intros k Hk. destruct (decide (addr = k)) as [->|Hne].
      * rewrite lookup_insert_eq. eauto.
      * rewrite lookup_insert_ne by exact Hne. auto.
    + intros k l. rewrite length_app. cbn.
      destruct (decide (addr = k)) as [->|Hne].
      * rewrite lookup_insert_eq. intros [= <-]. lia.
      * rewrite lookup_insert_ne by exact Hne. intros Hk.
        specialize (Hptr k l Hk). lia.
Qed.

(** X7: When every registered address points to an allocated contract, this
    stays so after every opcode and every run of the driver loop, and no
    registered address is ever unregistered. *)
Theorem X7_registry_stays_sound (fuel l0 : nat) (opcode : byte) (m : Machine) :
  (forall k l, contracts m !! k = Some l -> (l < length (heap m))%nat) ->
  registry_sound (contracts m) (snd (ExecuteOpcode fuel opcode m)) /\
  registry_sound (contracts m) (snd (mainLoop fuel l0 m)).
Proof.
  intros Hwf.
  assert (H0 : registry_sound (contracts m) m) by (split; auto).
  split.
  - apply preserves_snd; [apply registry_sound_by_opcodes | exact H0].
  - apply preserves_snd; [|exact H0].
    apply preserves_mainLoop; [intros; apply registry_sound_by_opcodes|].
    intros p m1 H. exact H.
Qed.

(** ** Arithmetic and comparison opcodes *)

Lemma binaryOperation_run (op : Z -> Z -> Z) (cost : Z) (m : Machine)
    (s : list Value) (a b : Value) :
  stack (evm m) = s ++ [a; b] -> len s < 1024 -> cost <= gas (evm m) ->
  binaryOperation op cost m =
    (Ok tt,
     set_stack (s ++ [mkValue Uint256 (op (Value_Value a) (Value_Value b))])
       (set_gas (uint64 (gas (evm m) - cost)) m)).
Proof.
  intros Hs Hlen Hc. unfold binaryOperation, bind.
  rewrite useGas_ok' by assumption.
  rewrite (evm_stack_pop_snoc _ (s ++ [a]) b)
    by (cbn; rewrite Hs, <- app_assoc; reflexivity).
  rewrite (evm_stack_pop_snoc _ s a) by reflexivity.
  rewrite evm_stack_push_ok by exact Hlen.
  reflexivity.
Qed.

Lemma compareOperation_run (op : Z -> Z -> bool) (cost : Z) (m : Machine)
    (s : list Value) (a b : Value) :
  stack (evm m) = s ++ [a; b] -> len s < 1024 -> cost <= gas (evm m) ->
  compareOperation op cost m =
    (Ok tt,
     set_stack (s ++ [mkValue Uint256
                        (if op (Value_Value a) (Value_Value b) then 1 else 0)])
       (set_gas (uint64 (gas (evm m) - cost)) m)).
Proof.
  intros Hs Hlen Hc. unfold compareOperation, bind.
  rewrite useGas_ok' by assumption.
  rewrite (evm_stack_pop_snoc _ (s ++ [a]) b)
    by (cbn; rewrite Hs, <- app_assoc; reflexivity).
  rewrite (evm_stack_pop_snoc _ s a) by reflexivity.
  destruct (op (Value_Value a) (Value_Value b));
    rewrite evm_stack_push_ok by exact Hlen; reflexivity.
Qed.

Lemma BigInt_Div_euclid (a b : Z) :
  b <> 0 ->
  exists r, a = BigInt.Div a b * b + r /\ 0 <= r < Z.abs b.
Proof.
  intros Hb. unfold BigInt.Div. exists (a mod Z.abs b). split.
  - pose proof (Z.div_mod a (Z.abs b)) as H.
    assert (Hs : Z.sgn b * (a / Z.abs b) * b = Z.abs b * (a / Z.abs b)).
    { rewrite <- (Z.sgn_abs b) at 2. ring_simplify.
      replace (Z.sgn b ^ 2) with 1; [ring|].
      destruct b; cbn; try reflexivity. contradiction. }
    rewrite Hs. apply H. lia.
  - apply Z.mod_pos_bound. lia.
Qed.

(** X8: ADD, MUL, SUB and DIV pop the right operand [b] first, then the left
    operand [a], and push the exact integer result tagged Uint256: nothing
    is reduced modulo 2^256, SUB below zero pushes a negative value, DIV by
    zero pushes 0 instead of failing, and DIV otherwise pushes the Euclidean
    quotient (remainder between 0 and |b|). *)
Theorem X8_arithmetic_opcodes_are_exact (fuel : nat) (m : Machine)
    (s : list Value) (a b : Value) :
  stack (evm m) = s ++ [a; b] -> len s < 1024 -> 5 <= gas (evm m) ->
  let x := Value_Value a in
  let y := Value_Value b in
  let pushed opcode q :=
    fst (ExecuteOpcode fuel opcode m) = Ok tt /\
    stack (evm (snd (ExecuteOpcode fuel opcode m))) = s ++ [mkValue Uint256 q] in
  pushed x01 (x + y) /\
  pushed x02 (x * y) /\
  pushed x03 (x - y) /\
  (y = 0 -> pushed x04 0) /\
  (y <> 0 ->
   exists q r, pushed x04 q /\ x = q * y + r /\ 0 <= r < Z.abs y).
Proof.
  intros Hs Hlen Hg x y pushed. unfold pushed.
  rewrite !(ExecuteOpcode_fuel_irrelevant fuel) by discriminate.
  cbn [ExecuteOpcode].
  rewrite !(binaryOperation_run _ _ m s a b Hs Hlen) by lia.
  cbn [fst snd evm stack set_stack]. fold x y.
  split; [split; reflexivity|].
  split; [split; reflexivity|].
  split; [split; reflexivity|].
  unfold BigInt.Sign. split.
  - intros ->. split; reflexivity.
  - intros Hy. destruct (BigInt_Div_euclid x y Hy) as (r & Hq & Hr).
    exists (BigInt.Div x y), r.
    destruct (Z.eqb_spec (Z.sgn y) 0) as [E|_].
    + exfalso. apply Hy. apply Z.sgn_null_iff. exact E.
    + split; [split; reflexivity|]. split; assumption.
Qed.

(** X9: LT, GT and EQ pop [b] then [a] and push the Uint256 value 1 when
    a < b, a > b, a = b respectively, and 0 otherwise; exactly one of the
    three pushes 1. *)
Theorem X9_comparison_opcodes_push_one_or_zero (fuel : nat) (m : Machine)
    (s : list Value) (a b : Value) :
  stack (evm m) = s ++ [a; b] -> len s < 1024 -> 3 <= gas (evm m) ->
  let x := Value_Value a in
  let y := Value_Value b in
  let pushed opcode q :=
    fst (ExecuteOpcode fuel opcode m) = Ok tt /\
    stack (evm (snd (ExecuteOpcode fuel opcode m))) = s ++ [mkValue Uint256 q] in
  pushed x10 (if decide (x < y) then 1 else 0) /\
  pushed x11 (if decide (y < x) then 1 else 0) /\
  pushed x14 (if decide (x = y) then 1 else 0) /\
  (if decide (x < y) then 1 else 0) + (if decide (y < x) then 1 else 0)
    + (if decide (x = y) then 1 else 0) = 1.
Proof.
  intros Hs Hlen Hg x y pushed. unfold pushed.
  rewrite !(ExecuteOpcode_fuel_irrelevant fuel) by discriminate.
  cbn [ExecuteOpcode].
  rewrite !(compareOperation_run _ _ m s a b Hs Hlen) by lia.
  cbn [fst snd evm stack set_stack]. fold x y.
  split; [|split; [|split]].
  - split; [reflexivity|].
    destruct (Z.ltb_spec x y); destruct (decide (x < y)); reflexivity || lia.
  - split; [reflexivity|]. rewrite Z.gtb_ltb.
    destruct (Z.ltb_spec y x); destruct (decide (y < x)); reflexivity || lia.
  - split; [reflexivity|].
    destruct (Z.eqb_spec x y); destruct (decide (x = y)); reflexivity || lia.
  - destruct (decide (x < y)), (decide (y < x)), (decide (x = y)); lia.
Qed.

(** ** Failures after the charge *)

Lemma evm_stack_pop_singleton (m : Machine) (a : Value) :
  stack (evm m) = [a] -> evm_stack_pop m = (Ok a, set_stack [] m).
Proof. intros H. apply (evm_stack_pop_snoc m [] a). exact H. Qed.

Lemma evm_stack_pop_empty (m : Machine) :
  stack (evm m) = [] -> evm_stack_pop m = (Err StackUnderflow, m).
Proof.
  intros H. unfold evm_stack_pop. rewrite H. cbn.
  destruct m as [[] ? ?]. cbn in H. subst. reflexivity.
Qed.

(** X10: a failed opcode is not undone.  Any of the seven two-operand
    opcodes run on a stack of one value fails with StackUnderflow after it
    has charged its gas and removed that value: the stack is left empty. *)
Theorem X10_two_operand_opcode_on_one_value (fuel : nat) (opcode : byte)
    (cost : Z) (m : Machine) (a : Value) :
  opcode ∈ [x01; x02; x03; x04; x10; x11; x14] ->
  gasCostOf opcode = Some cost -> cost <= gas (evm m) ->
  stack (evm m) = [a] ->
  ExecuteOpcode fuel opcode m =
    (Err StackUnderflow,
     set_stack [] (set_gas (uint64 (gas (evm m) - cost)) m)).
Proof.
  intros Hop Hcost Hg Hs.
  assert (Hbin : forall op, binaryOperation op cost m =
            (Err StackUnderflow,
             set_stack [] (set_gas (uint64 (gas (evm m) - cost)) m))).
  { intros op. unfold binaryOperation, bind. rewrite useGas_ok' by exact Hg.
    rewrite (evm_stack_pop_singleton _ a) by exact Hs.
    rewrite evm_stack_pop_empty by reflexivity. reflexivity. }
  assert (Hcmp : forall op, compareOperation op cost m =
            (Err StackUnderflow,
             set_stack [] (set_gas (uint64 (gas (evm m) - cost)) m))).
  { intros op. unfold compareOperation, bind. rewrite useGas_ok' by exact Hg.
    rewrite (evm_stack_pop_singleton _ a) by exact Hs.
    rewrite evm_stack_pop_empty by reflexivity. reflexivity. }
  repeat (apply elem_of_cons in Hop; destruct Hop as [->|Hop]);
    try (rewrite (ExecuteOpcode_fuel_irrelevant fuel) by discriminate;
         cbn in Hcost; injection Hcost as <-; cbn [ExecuteOpcode];
         first [apply Hbin | apply Hcmp]).
  apply elem_of_nil in Hop. contradiction.
Qed.

(** ** DUP1 and SWAP1 *)

Lemma index_last {A} (s : list A) (v : A) (m : Machine) :
  len s < 2 ^ 64 ->
  index (s ++ [v]) (uint64 (len (s ++ [v]) - 1)) m = (Ok v, m).
Proof.
  intros H. unfold index. rewrite len_app. unfold len in *. cbn [length].
  rewrite uint64_small by lia.
  replace (Z.to_nat (Z.of_nat (length s) + Z.of_nat 1 - 1)) with (length s) by lia.
  rewrite list_lookup_middle by reflexivity. reflexivity.
Qed.

(** X11: DUP1 pushes a second reference to the top value and leaves the rest
    of the stack; on an empty stack it fails with its own underflow error,
    and on a full stack with StackOverflow, in both cases with the gas
    charged and the stack as it was. *)
Theorem X11_dup1_duplicates_the_top (fuel : nat) (m : Machine) (s : list Value)
    (v : Value) :
  3 <= gas (evm m) ->
  let charged := set_gas (uint64 (gas (evm m) - 3)) m in
  (stack (evm m) = s ++ [v] -> len s < 1023 ->
   ExecuteOpcode fuel x80 m = (Ok tt, set_stack (s ++ [v; v]) charged)) /\
  (stack (evm m) = [] ->
   ExecuteOpcode fuel x80 m = (Err DupUnderflow, charged)) /\
  (stack (evm m) = s ++ [v] -> len s = 1023 ->
   ExecuteOpcode fuel x80 m = (Err StackOverflow, charged)).
Proof.
  intros Hg charged.
  rewrite (ExecuteOpcode_fuel_irrelevant fuel) by discriminate.
  cbn [ExecuteOpcode]. unfold dup, bind. rewrite useGas_ok' by exact Hg.
  fold charged. unfold get.
  change (stack (evm charged)) with (stack (evm m)).
  split; [|split].
  - intros Hs Hlen. rewrite Hs.
    destruct (Z.ltb_spec (len (s ++ [v])) 1) as [Hbad|_].
    { rewrite len_app in Hbad. unfold len in Hbad. cbn in Hbad. lia. }
    rewrite index_last by (unfold len in *; lia).
    rewrite evm_stack_push_ok
      by (cbn; rewrite Hs, len_app; unfold len in *; cbn; lia).
    cbn. rewrite Hs, <- app_assoc. reflexivity.
  - intros Hs. rewrite Hs. reflexivity.
  - intros Hs Hlen. rewrite Hs.
    destruct (Z.ltb_spec (len (s ++ [v])) 1) as [Hbad|_].
    { rewrite len_app in Hbad. unfold len in Hbad. cbn in Hbad. lia. }
    rewrite index_last by (unfold len in *; lia).
    unfold evm_stack_push. rewrite push_overflow
      by (cbn; rewrite Hs, len_app; unfold len in *; cbn; lia).
    cbn. destruct m as [[] ? ?]. cbn in *. subst. reflexivity.
Qed.

Lemma index_at {A} (l : list A) (i : Z) (x : A) (m : Machine) :
  0 <= i < 2 ^ 64 -> l !! Z.to_nat i = Some x ->
  index l (uint64 i) m = (Ok x, m).
Proof.
  intros Hi Hx. unfold index. rewrite uint64_small by exact Hi.
  rewrite Hx. reflexivity.
Qed.

Lemma swap_top_two {A} (s : list A) (a b : A) :
  <[length s := b]> (<[S (length s) := a]> (s ++ [a; b])) = s ++ [b; a].
Proof.
  induction s as [|x s IH]; [reflexivity|].
  change (x :: <[length s := b]> (<[S (length s) := a]> (s ++ [a; b]))
          = x :: (s ++ [b; a])).
  f_equal. exact IH.
Qed.

Lemma swap1_run (m : Machine) (s : list Value) (a b : Value) :
  stack (evm m) = s ++ [a; b] -> len s < 2 ^ 63 -> 3 <= gas (evm m) ->
  swap 1 3 m =
    (Ok tt, set_stack (s ++ [b; a]) (set_gas (uint64 (gas (evm m) - 3)) m)).
Proof.
  intros Hs Hlen Hg. unfold swap, bind. rewrite useGas_ok' by exact Hg.
  unfold get. cbn [evm set_gas stack]. rewrite Hs.
  pose proof (len_nonneg s) as Hn.
  assert (Hl : len (s ++ [a; b]) = len s + 2)
    by (rewrite len_app; unfold len; cbn; lia).
  rewrite Hl.
  destruct (Z.leb_spec (len s + 2) 1) as [Hbad|_]; [lia|].
  assert (Ha : (s ++ [a; b]) !! Z.to_nat (len s + 2 - 1 - 1) = Some a).
  { replace (Z.to_nat (len s + 2 - 1 - 1)) with (length s) by (unfold len; lia).
    apply list_lookup_middle. reflexivity. }
  assert (Hb : (s ++ [a; b]) !! Z.to_nat (len s + 2 - 1) = Some b).
  { replace (Z.to_nat (len s + 2 - 1)) with (length s + 1)%nat by (unfold len; lia).
    rewrite lookup_app_r by lia.
    replace (length s + 1 - length s)%nat with 1%nat by lia. reflexivity. }
  rewrite (index_at _ _ b) by (lia || exact Hb).
  rewrite (index_at _ _ a) by (lia || exact Ha).
  unfold modify. rewrite !uint64_small by lia.
  replace (Z.to_nat (len s + 2 - 1 - 1)) with (length s) by (unfold len; lia).
  replace (Z.to_nat (len s + 2 - 1)) with (S (length s)) by (unfold len; lia).
  rewrite swap_top_two. reflexivity.
Qed.

(** X12: SWAP1 exchanges the two top values and leaves the rest of the
    stack; executed twice it puts the stack back as it was.  With fewer than
    two values it fails with its own underflow error and the stack is
    unchanged. *)
Theorem X12_swap1_is_an_involution (fuel : nat) (m : Machine) (s : list Value)
    (a b : Value) :
  6 <= gas (evm m) < 2 ^ 64 -> len s <= 1022 ->
  (stack (evm m) = s ++ [a; b] ->
   exists m1 m2,
     ExecuteOpcode fuel x90 m = (Ok tt, m1) /\ stack (evm m1) = s ++ [b; a] /\
     ExecuteOpcode fuel x90 m1 = (Ok tt, m2) /\ stack (evm m2) = s ++ [a; b]) /\
  (stack (evm m) = [a] \/ stack (evm m) = [] ->
   fst (ExecuteOpcode fuel x90 m) = Err SwapUnderflow /\
   stack (evm (snd (ExecuteOpcode fuel x90 m))) = stack (evm m)).
Proof.
  intros Hg Hlen.
  rewrite !(ExecuteOpcode_fuel_irrelevant fuel) by discriminate.
  cbn [ExecuteOpcode]. split.
  - intros Hs. eexists. eexists.
    rewrite (swap1_run m s a b Hs) by lia.
    split; [reflexivity|]. split; [reflexivity|].
    assert (Hg1 : 3 <= gas (evm (set_stack (s ++ [b; a])
                                   (set_gas (uint64 (gas (evm m) - 3)) m))))
      by (cbn; rewrite uint64_small; lia).
    rewrite (swap1_run (set_stack (s ++ [b; a])
                          (set_gas (uint64 (gas (evm m) - 3)) m)) s b a eq_refl)
      by (lia || exact Hg1).
    split; reflexivity.
  - intros Hs. unfold swap, bind. rewrite useGas_ok' by lia.
    unfold get. cbn [evm set_gas stack].
    destruct Hs as [Hs|Hs]; rewrite Hs; (split; [reflexivity | exact Hs]).
Qed.

(** ** Control flow *)

Lemma Uint64_range (x : Z) : 0 <= BigInt.Uint64 x < 2 ^ 64.
Proof. unfold BigInt.Uint64. apply Z.mod_pos_bound. lia. Qed.

Lemma jump_then_increment (d : Z) :
  0 <= d < 2 ^ 64 -> uint64 (uint64 (d - 1) + 1) = d.
Proof.
  intros H. unfold uint64. rewrite Zplus_mod_idemp_l.
  replace (d - 1 + 1) with d by lia. apply Z.mod_small. exact H.
Qed.

(** X13: a JUMP, or a JUMPI whose condition is not zero, makes the driver
    loop continue exactly at the destination (the low 64 bits of the
    magnitude of the popped value): the handler stores destination - 1 and the
    loop's increment, both in [uint64], undoes the - 1.  A destination at
    or beyond the end of the code then ends the loop through its condition. *)
Theorem X13_jump_lands_on_destination (fuel l : nat) (c : Contract) (m : Machine)
    (op : byte) (s : list Value) (dest : Value) :
  heap m !! l = Some c ->
  pc (evm m) < len (Code c) ->
  Code c !! Z.to_nat (pc (evm m)) = Some op ->
  (op = x56 /\ stack (evm m) = s ++ [dest] /\ 8 <= gas (evm m)) \/
  (op = x57 /\ 10 <= gas (evm m) /\
   exists condition,
     stack (evm m) = s ++ [dest; condition] /\ Value_Value condition <> 0) ->
  exists m1,
    mainLoop (S fuel) l m = mainLoop fuel l m1 /\
    pc (evm m1) = BigInt.Uint64 (Value_Value dest) /\
    stack (evm m1) = s /\
    (len (Code c) <= BigInt.Uint64 (Value_Value dest) ->
     mainLoop (S (S fuel)) l m = (Ok tt, m1)).
Proof.
  intros Hl Hpc Hop Hcase.
  set (d := BigInt.Uint64 (Value_Value dest)).
  pose proof (Uint64_range (Value_Value dest)) as Hd. fold d in Hd.
  assert (Hrun : exists g, forall n,
            ExecuteOpcode n op m =
              (Ok tt, set_pc (uint64 (d - 1)) (set_stack s (set_gas g m)))).
  { destruct Hcase as [(-> & Hs & Hg) | (-> & Hg & condition & Hs & Hc)];
      eexists; intros n;
      rewrite (ExecuteOpcode_fuel_irrelevant n) by discriminate;
      cbn [ExecuteOpcode].
    - rewrite (jump_spec m s dest Hs Hg). reflexivity.
    - rewrite (jumpi_taken_spec m s dest condition Hs Hc Hg). reflexivity. }
  destruct Hrun as (g & Hrun).
  set (m1 := set_pc d (set_stack s (set_gas g m))).
  assert (Hstep : forall n, mainLoop (S n) l m = mainLoop n l m1).
  { intros n. rewrite (mainLoop_step _ _ c _ op Hl Hpc Hop).
    unfold bind at 1. rewrite Hrun. unfold bind at 1, modify.
    cbn [pc evm set_pc]. rewrite jump_then_increment by exact Hd. reflexivity. }
  exists m1. split; [exact (Hstep fuel)|].
  split; [reflexivity|]. split; [reflexivity|].
  intros Hout. rewrite (Hstep (S fuel)).
  apply (mainLoop_exit fuel l c m1); [exact Hl | exact Hout].
Qed.

(** X14: a JUMPI whose condition is zero pops both operands and leaves the
    program counter alone, so the driver loop goes on with the opcode that
    follows the JUMPI. *)
Theorem X14_jumpi_with_zero_condition_falls_through (fuel l : nat) (c : Contract)
    (m : Machine) (s : list Value) (dest condition : Value) :
  heap m !! l = Some c ->
  0 <= pc (evm m) < len (Code c) -> len (Code c) < 2 ^ 64 ->
  Code c !! Z.to_nat (pc (evm m)) = Some x57 ->
  stack (evm m) = s ++ [dest; condition] -> Value_Value condition = 0 ->
  10 <= gas (evm m) ->
  exists m1,
    ExecuteOpcode fuel x57 m = (Ok tt, m1) /\
    pc (evm m1) = pc (evm m) /\ stack (evm m1) = s /\
    mainLoop (S fuel) l m = mainLoop fuel l (set_pc (pc (evm m) + 1) m1).
Proof.
  intros Hl Hpc Hcode Hop Hs Hc Hg.
  assert (Hrun : ExecuteOpcode fuel x57 m =
            (Ok tt, set_stack s (set_gas (uint64 (gas (evm m) - 10)) m))).
  { rewrite ExecuteOpcode_fuel_irrelevant by discriminate. cbn [ExecuteOpcode].
    unfold jumpi, bind. rewrite useGas_ok' by exact Hg.
    rewrite (evm_stack_pop_snoc _ (s ++ [dest]) condition)
      by (cbn; rewrite Hs, <- app_assoc; reflexivity).
    rewrite (evm_stack_pop_snoc _ s dest) by reflexivity.
    rewrite Hc. reflexivity. }
  eexists. split; [exact Hrun|]. split; [reflexivity|]. split; [reflexivity|].
  rewrite (mainLoop_step _ _ c _ x57 Hl (proj2 Hpc) Hop).
  unfold bind at 1. rewrite Hrun. unfold bind at 1, modify.
  cbn [pc evm set_pc set_stack set_gas]. rewrite uint64_small by lia.
  reflexivity.
Qed.

(** ** PUSH1 *)

Lemma slice_one {A} (l : list A) (i : Z) (x : A) :
  0 <= i -> l !! Z.to_nat (i) = Some x -> slice l i (i + 1) = Ok [x].
Proof.
  intros Hi Hx.
  assert (Hlt : (Z.to_nat i < length l)%nat) by (apply lookup_lt_Some in Hx; exact Hx).
  rewrite slice_ok by (unfold len; lia).
  replace (Z.to_nat (i + 1 - i)) with 1%nat by lia.
  rewrite (drop_S _ _ _ Hx). reflexivity.
Qed.

(** X15: PUSH1 pushes the byte that follows it in the code, as a Uint256
    between 0 and 255, and moves the program counter onto that byte (the
    loop's increment then steps over it).  When PUSH1 is the last byte of
    the code it fails with its out-of-bounds error, with the gas charged and
    nothing pushed. *)
Theorem X15_push1_reads_its_immediate (fuel l : nat) (c : Contract) (m : Machine) :
  contract (evm m) = Some l -> heap m !! l = Some c ->
  0 <= pc (evm m) < len (Code c) -> len (Code c) < 2 ^ 63 ->
  3 <= gas (evm m) -> len (stack (evm m)) < 1024 ->
  let charged := set_gas (uint64 (gas (evm m) - 3)) m in
  (forall b, Code c !! Z.to_nat (pc (evm m) + 1) = Some b ->
     ExecuteOpcode fuel x60 m =
       (Ok tt,
        set_stack (stack (evm m) ++ [mkValue Uint256 (Z.of_N (Byte.to_N b))])
          (set_pc (pc (evm m) + 1) charged)) /\
     0 <= Z.of_N (Byte.to_N b) <= 255) /\
  (pc (evm m) + 1 = len (Code c) ->
   ExecuteOpcode fuel x60 m = (Err PushOutOfBounds, charged)).
Proof.
  intros Hc Hl Hpc Hcode Hg Hlen charged.
  rewrite (ExecuteOpcode_fuel_irrelevant fuel) by discriminate.
  cbn [ExecuteOpcode]. unfold push, bind. rewrite useGas_ok' by exact Hg.
  fold charged. unfold evm_contract, bind, get, deref.
  change (contract (evm charged)) with (contract (evm m)).
  change (heap charged) with (heap m).
  change (pc (evm charged)) with (pc (evm m)).
  rewrite Hc, Hl.
  change (pc (evm charged)) with (pc (evm m)). split.
  - intros b Hb.
    assert (Hin : (Z.to_nat (pc (evm m) + 1) < length (Code c))%nat)
      by (apply lookup_lt_Some in Hb; exact Hb).
    rewrite !uint64_small by (unfold len in *; lia).
    destruct (Z.ltb_spec (len (Code c)) (pc (evm m) + 1 + 1));
      [unfold len in *; lia|].
    rewrite (slice_one _ _ b) by (lia || exact Hb).
    unfold modify. rewrite evm_stack_push_ok by exact Hlen.
    split; [reflexivity|].
    pose proof (Byte.to_N_bounded b). lia.
  - intros Hlast. rewrite !uint64_small by lia.
    destruct (Z.ltb_spec (len (Code c)) (pc (evm m) + 1 + 1)); [|lia].
    reflexivity.
Qed.

(** ** Bytes outside the opcode table *)

(** X16: STOP and the 236 bytes that are not opcodes return their error at
    once: no gas is charged and the machine is left exactly as it was.  The
    error of an unknown byte carries that byte. *)
Theorem X16_uncosted_bytes_change_nothing (fuel : nat) (opcode : byte) (m : Machine) :
  gasCostOf opcode = None ->
  ExecuteOpcode fuel opcode m =
    (Err (if decide (opcode = x00) then STOP else UnknownOpcode opcode), m).
Proof.
  intros H. destruct fuel; destruct opcode; cbn in H; try discriminate H;
    reflexivity.
Qed.

(** ** CREATE *)

(** X17: CREATE pops size, offset and value, allocates a contract whose code
    is the memory range and whose storage is empty, and registers it under
    the placeholder address, which is the same for every creator and every
    registry size: a CREATE takes over the registry entry of any earlier
    CREATE.  The Address value it pushes converts back, the way CALL converts
    its address operand, to the key just registered. *)
Theorem X17_create_registers_a_resolvable_contract (fuel : nat) (m : Machine)
    (s : list Value) (value_ offset size : Value) (code : list byte)
    (l0 : nat) (self : Contract) :
  stack (evm m) = s ++ [value_; offset; size] -> len s < 1024 ->
  32000 <= gas (evm m) ->
  Memory.load (memory (evm m)) (BigInt.Uint64 (Value_Value offset))
    (BigInt.Uint64 (Value_Value size)) = Ok code ->
  contract (evm m) = Some l0 -> heap m !! l0 = Some self ->
  exists m' pushed,
    ExecuteOpcode fuel xf0 m = (Ok tt, m') /\
    stack (evm m') = s ++ [pushed] /\
    Value_Type pushed = Address /\
    heap m' = heap m ++ [mkContract (createAddress [] 0) code ∅] /\
    contracts m' = <[createAddress [] 0 := length (heap m)]> (contracts m) /\
    contracts m'
      !! copy (replicate 20 x00) (BigInt.Bytes (Value_Value pushed))
      = Some (length (heap m)).
Proof.
  intros Hs Hlen Hg Hload Hc Hl.
  rewrite (ExecuteOpcode_fuel_irrelevant fuel) by discriminate.
  cbn [ExecuteOpcode]. unfold create, bind. rewrite useGas_ok' by exact Hg.
  rewrite (evm_stack_pop_snoc _ (s ++ [value_; offset]) size)
    by (cbn; rewrite Hs, <- app_assoc; reflexivity).
  rewrite (evm_stack_pop_snoc _ (s ++ [value_]) offset)
    by (cbn; rewrite <- app_assoc; reflexivity).
  rewrite (evm_stack_pop_snoc _ s value_) by reflexivity.
  unfold evm_memory_load. cbn [evm memory set_stack set_gas]. rewrite Hload.
  unfold evm_contract, bind, get, deref.
  cbn [evm contract heap set_stack set_gas]. rewrite Hc, Hl.
  unfold modify. rewrite evm_stack_push_ok by exact Hlen.
  eexists. eexists. split; [reflexivity|].
  cbn [evm stack heap contracts set_stack set_heap set_contracts set_gas
       Value_Type Value_Value].
  repeat split.
  match goal with
  | |- _ !! ?k = _ =>
      replace k with (createAddress [] 0)
        by (vm_compute; reflexivity)
  end.
  apply (lookup_insert_eq (contracts m) (createAddress [] 0)).
Qed.

(** ** CALL, seen from the caller *)

(** X18: a CALL whose address operand is not registered fails with
    ContractNotFound once the gas is charged and the seven operands are
    popped; no frame is built and contracts and registry are untouched. *)
Theorem X18_call_to_unregistered_address (fuel : nat) (m : Machine)
    (s : list Value) (g a v ro rs ao az : Value) (args : list byte) :
  stack (evm m) = s ++ [g; a; v; ro; rs; ao; az] ->
  40 <= gas (evm m) ->
  Memory.load (memory (evm m)) (BigInt.Uint64 (Value_Value ao))
    (BigInt.Uint64 (Value_Value az)) = Ok args ->
  contracts m !! copy (replicate 20 x00) (BigInt.Bytes (Value_Value a)) = None ->
  ExecuteOpcode fuel xf1 m =
    (Err ContractNotFound,
     set_stack s (set_gas (uint64 (gas (evm m) - 40)) m)).
Proof.
  intros Hs Hg Hargs Hnone.
  assert (H : forall exec steps,
            call exec steps 40 m =
              (Err ContractNotFound,
               set_stack s (set_gas (uint64 (gas (evm m) - 40)) m))).
  { intros exec steps. unfold call. unfold bind at 1.
    rewrite useGas_ok' by exact Hg. unfold bind at 1.
    rewrite (popCallOperands_spec _ s g a v ro rs ao az) by exact Hs.
    cbn [argsOffset argsSize retOffset retSize address gasLimit].
    unfold bind at 1. unfold evm_memory_load.
    cbn [evm memory set_stack set_gas]. rewrite Hargs.
    unfold bind at 1. unfold get. cbn [contracts set_stack set_gas].
    rewrite Hnone. reflexivity. }
  destruct fuel; cbn [ExecuteOpcode]; apply H.
Qed.

Lemma pop_Ok_inv (s s' : list Value) (v : Value) :
  Stack.pop s = (Ok v, s') -> s = s' ++ [v].
Proof.
  unfold Stack.pop. destruct (len s =? 0); [discriminate|].
  destruct (s !! (length s - 1)%nat) as [x|] eqn:E; [|discriminate].
  intros [= <- <-]. rewrite <- (take_S_r _ _ _ E).
  symmetry. apply take_ge. lia.
Qed.

Lemma evm_stack_pop_Ok_inv (m m' : Machine) (v : Value) :
  evm_stack_pop m = (Ok v, m') ->
  stack (evm m) = stack (evm m') ++ [v] /\
  pc (evm m') = pc (evm m) /\ logs (evm m') = logs (evm m).
Proof.
  unfold evm_stack_pop. destruct (Stack.pop (stack (evm m))) as [r s'] eqn:E.
  intros [= -> <-]. apply pop_Ok_inv in E. cbn. auto.
Qed.

Lemma bind_Ok_inv {A B} (c : M A) (k : A -> M B) (m m' : Machine) (b : B) :
  bind c k m = (Ok b, m') ->
  exists a m1, c m = (Ok a, m1) /\ k a m1 = (Ok b, m').
Proof.
  unfold bind. destruct (c m) as [[a|e| |] m1]; intros H; try discriminate H.
  exists a, m1. auto.
Qed.

Lemma load_of_empty_memory (offset size : Z) (data : list byte) :
  Memory.load [] offset size = Ok data -> data = [].
Proof.
  unfold Memory.load, slice.
  destruct (Memory.load_out_of_bounds [] offset size); [discriminate|].
  destruct (_ && _); [|discriminate].
  rewrite drop_nil, take_nil. intros [= <-]. reflexivity.
Qed.

Lemma callee_memory_stays_empty (exec : byte -> M unit) (steps l : nat)
    (callee : EVM) (m mc : Machine) (r : result unit) :
  (forall op m0, preserves (same_frame_identity m0) (exec op)) ->
  memory callee = [] ->
  calleeLoop exec steps l (set_evm callee m) = (r, mc) ->
  memory (evm mc) = [].
Proof.
  intros Hex Hmem Hrun.
  assert (H : same_frame_identity (set_evm callee m) mc).
  { apply (preserves_calleeLoop (same_frame_identity (set_evm callee m))
             exec steps l (fun op => Hex op (set_evm callee m))
             (set_evm callee m) r mc);
      [repeat split | exact Hrun]. }
  destruct H as (Hm & _). rewrite Hm. exact Hmem.
Qed.

Lemma nested_exec_keeps_identity (fuel : nat) (op : byte) (m0 : Machine) :
  preserves (same_frame_identity m0)
    (match fuel with
     | O => out_of_fuel
     | S fuel' => ExecuteOpcode fuel' op
     end).
Proof. destruct fuel; [pres_read | apply identity_kept]. Qed.

(** X19: the memory of a callee starts empty and no opcode writes it, so a
    CALL that succeeds always leaves the caller with empty return data; it
    has popped seven operands and it leaves the caller's program counter and
    logs alone (what the callee logged is dropped with its frame). *)
Theorem X19_successful_call_returns_no_data (fuel : nat) (m m' : Machine) :
  ExecuteOpcode fuel xf1 m = (Ok tt, m') ->
  returnData (evm m') = [] /\
  (exists operands,
     length operands = 7%nat /\ stack (evm m) = stack (evm m') ++ operands) /\
  pc (evm m') = pc (evm m) /\
  logs (evm m') = logs (evm m).
Proof.
  intros Hrun.
  assert (Hcall : exists exec steps,
            (forall op m0, preserves (same_frame_identity m0) (exec op)) /\
            call exec steps 40 m = (Ok tt, m')).
  { destruct fuel; cbn [ExecuteOpcode] in Hrun; eexists; eexists;
      (split; [|exact Hrun]); intros op m0.
    - pres_read.
    - apply (nested_exec_keeps_identity (S fuel)). }
  clear Hrun. destruct Hcall as (exec & steps & Hex & Hrun).
  unfold call in Hrun.
  apply bind_Ok_inv in Hrun. destruct Hrun as ([] & m1 & Hgas & Hrun).
  apply bind_Ok_inv in Hrun. destruct Hrun as (o & m2 & Hpop & Hrun).
  apply bind_Ok_inv in Hrun. destruct Hrun as (args & m3 & Hload & Hrun).
  apply bind_Ok_inv in Hrun. destruct Hrun as (m4 & m5 & Hget & Hrun).
  destruct (contracts m4 !! _) as [l|]; [|discriminate Hrun].
  apply bind_Ok_inv in Hrun. destruct Hrun as ([u e] & m6 & Hframe & Hrun).
  apply bind_Ok_inv in Hrun. destruct Hrun as (data & m7 & Hret & Hrun).
  unfold modify in Hrun. injection Hrun as <-.
  injection Hget as -> ->. unfold evm_memory_load in Hload.
  injection Hload as _ ->.
  (* the gas charge *)
  unfold useGas in Hgas.
  destruct (gas (evm m) <? 40); [discriminate Hgas|]. injection Hgas as <-.
  (* the callee *)
  unfold in_frame in Hframe.
  match type of Hframe with
  | context [calleeLoop ?ex ?n ?l0 (set_evm ?cf ?mm)] =>
      destruct (calleeLoop ex n l0 (set_evm cf mm)) as [[[]|?| |] mc] eqn:Hloop;
        try discriminate Hframe;
      assert (Hmem : memory (evm mc) = [])
        by exact (callee_memory_stays_empty ex n l0 cf mm mc (Ok tt) Hex
                    eq_refl Hloop)
  end.
  injection Hframe as He Hm6. subst e m6.
  cbn [snd] in Hret. rewrite Hmem in Hret.
  injection Hret as Hret Hm7. subst m7.
  apply load_of_empty_memory in Hret. subst data.
  (* the seven pops *)
  unfold popCallOperands in Hpop.
  repeat (apply bind_Ok_inv in Hpop;
          let v := fresh "v" in let mp := fresh "mp" in let Hp := fresh "Hp" in
          destruct Hpop as (v & mp & Hp & Hpop)).
  injection Hpop as _ <-.
  apply evm_stack_pop_Ok_inv in Hp, Hp0, Hp1, Hp2, Hp3, Hp4, Hp5.
  destruct Hp as (Hs & Hpc & Hlg), Hp0 as (Hs0 & Hpc0 & Hlg0),
    Hp1 as (Hs1 & Hpc1 & Hlg1), Hp2 as (Hs2 & Hpc2 & Hlg2),
    Hp3 as (Hs3 & Hpc3 & Hlg3), Hp4 as (Hs4 & Hpc4 & Hlg4),
    Hp5 as (Hs5 & Hpc5 & Hlg5).
  cbn [evm set_gas stack pc logs] in Hs, Hpc, Hlg.
  cbn [evm set_returnData set_evm returnData stack pc logs].
  split; [reflexivity|]. split; [|split; congruence].
  exists [v5; v4; v3; v2; v1; v0; v]. split; [reflexivity|].
  rewrite Hs, Hs0, Hs1, Hs2, Hs3, Hs4, Hs5, <- !app_assoc. reflexivity.
Qed.

(** ** RETURN, REVERT and LOG0 *)

(** X20: RETURN and REVERT do the same thing to the machine: same charge,
    same two pops, same return data.  They differ in what they hand to the
    loop: where RETURN returns nil, REVERT returns its error, and where
    RETURN fails, REVERT fails with the same error. *)
Theorem X20_revert_is_return_with_an_error (fuel : nat) (m : Machine) :
  snd (ExecuteOpcode fuel xfd m) = snd (ExecuteOpcode fuel xf3 m) /\
  fst (ExecuteOpcode fuel xfd m) =
    match fst (ExecuteOpcode fuel xf3 m) with
    | Ok _ => Err RevertWithData
    | failed => failed
    end.
Proof.
  rewrite !(ExecuteOpcode_fuel_irrelevant fuel) by discriminate.
  cbn [ExecuteOpcode]. unfold returnOp, revert, bind, modify, throw.
  destruct (useGas 0 m) as [[[]|?| |] m1]; [|split; reflexivity..].
  destruct (evm_stack_pop m1) as [[size|?| |] m2]; [|split; reflexivity..].
  destruct (evm_stack_pop m2) as [[offset|?| |] m3]; [|split; reflexivity..].
  destruct (evm_memory_load _ _ m3) as [[data|?| |] m4]; split; reflexivity.
Qed.

(** X21: RETURN and REVERT pop the size first and the offset second and
    record that range of the frame's memory as return data; a range that
    does not fit the memory fails with MemoryOutOfBounds after both
    operands are gone. *)
Theorem X21_return_records_the_memory_range (fuel : nat) (m : Machine)
    (s : list Value) (offset size : Value) :
  stack (evm m) = s ++ [offset; size] ->
  gas (evm m) < 2 ^ 64 -> 0 <= gas (evm m) ->
  let range := Memory.load (memory (evm m)) (BigInt.Uint64 (Value_Value offset))
                 (BigInt.Uint64 (Value_Value size)) in
  (forall data, range = Ok data ->
     ExecuteOpcode fuel xf3 m =
       (Ok tt, set_returnData data (set_stack s m)) /\
     ExecuteOpcode fuel xfd m =
       (Err RevertWithData, set_returnData data (set_stack s m))) /\
  (range = Err MemoryOutOfBounds ->
     ExecuteOpcode fuel xf3 m = (Err MemoryOutOfBounds, set_stack s m) /\
     ExecuteOpcode fuel xfd m = (Err MemoryOutOfBounds, set_stack s m)).
Proof.
  intros Hs Hg Hg0 range.
  rewrite !(ExecuteOpcode_fuel_irrelevant fuel) by discriminate.
  cbn [ExecuteOpcode]. unfold returnOp, revert, bind.
  rewrite useGas_ok by lia.
  assert (Em : set_gas (gas (evm m) - 0) m = m).
  { rewrite Z.sub_0_r. destruct m as [[] ? ?]. reflexivity. }
  rewrite Em.
  rewrite (evm_stack_pop_snoc _ (s ++ [offset]) size)
    by (rewrite Hs, <- app_assoc; reflexivity).
  rewrite (evm_stack_pop_snoc _ s offset) by reflexivity.
  unfold evm_memory_load. cbn [evm memory set_stack]. fold range.
  split.
  - intros data ->. split; reflexivity.
  - intros ->. split; reflexivity.
Qed.

(** X22: LOG0 pops the size, then the offset, and appends one entry to the
    frame's logs: the address of the frame's contract, no topic, and that
    range of the frame's memory as data. *)
Theorem X22_log0_appends_one_entry (fuel : nat) (m : Machine) (s : list Value)
    (offset size : Value) (data : list byte) (l : nat) (self : Contract) :
  stack (evm m) = s ++ [offset; size] -> 375 <= gas (evm m) ->
  Memory.load (memory (evm m)) (BigInt.Uint64 (Value_Value offset))
    (BigInt.Uint64 (Value_Value size)) = Ok data ->
  contract (evm m) = Some l -> heap m !! l = Some self ->
  ExecuteOpcode fuel xa0 m =
    (Ok tt,
     set_logs (logs (evm m) ++ [mkLog (Contract_Address self) [] data])
       (set_stack s (set_gas (uint64 (gas (evm m) - 375)) m))).
Proof.
  intros Hs Hg Hload Hc Hl.
  rewrite (ExecuteOpcode_fuel_irrelevant fuel) by discriminate.
  cbn [ExecuteOpcode]. unfold log, bind. rewrite useGas_ok' by exact Hg.
  rewrite (evm_stack_pop_snoc _ (s ++ [offset]) size)
    by (cbn; rewrite Hs, <- app_assoc; reflexivity).
  rewrite (evm_stack_pop_snoc _ s offset) by reflexivity.
  unfold evm_memory_load. cbn [evm memory set_stack set_gas]. rewrite Hload.
  change (popTopics (Z.to_nat 0)) with (@ret (list (list byte)) []).
  unfold ret, evm_contract, bind, get, deref.
  cbn [evm contract heap set_stack set_gas]. rewrite Hc, Hl.
  reflexivity.
Qed.

(** ** Storage slots *)

Lemma sstore_run (m : Machine) (l : nat) (c : Contract) (s : list Value)
    (key v : Value) :
  contract (evm m) = Some l -> heap m !! l = Some c ->
  stack (evm m) = s ++ [key; v] -> 20000 <= gas (evm m) ->
  sstore 20000 m =
    (Ok tt,
     set_heap
       (<[l := mkContract (Contract_Address c) (Code c)
                 (<[BigInt.String (Value_Value key) := v]> (Contract_Storage c))]>
          (heap m))
       (set_stack s (set_gas (uint64 (gas (evm m) - 20000)) m))).
Proof.
  intros Hc Hl Hs Hg. unfold sstore, bind. rewrite useGas_ok' by exact Hg.
  rewrite (evm_stack_pop_snoc _ (s ++ [key]) v)
    by (cbn; rewrite Hs, <- app_assoc; reflexivity).
  rewrite (evm_stack_pop_snoc _ s key) by reflexivity.
  unfold storage_write. cbn [evm contract heap set_stack set_gas].
  rewrite Hc, Hl. reflexivity.
Qed.

(** X23: SSTORE writes one slot of one contract.  The slot is the integer
    of the key (its type tag plays no role); the last value written to it is
    the one it holds; every other slot of the frame's contract, negative slot
    numbers included, and every other contract keep what they held. *)
Theorem X23_sstore_writes_one_slot (fuel : nat) (m : Machine) (l : nat)
    (c : Contract) (s : list Value) (key v : Value) :
  contract (evm m) = Some l -> heap m !! l = Some c ->
  stack (evm m) = s ++ [key; v] -> 20000 <= gas (evm m) ->
  exists m' c',
    ExecuteOpcode fuel x55 m = (Ok tt, m') /\
    heap m' !! l = Some c' /\
    Contract_Storage c' !! BigInt.String (Value_Value key) = Some v /\
    (forall k, k <> Value_Value key ->
       Contract_Storage c' !! BigInt.String k
       = Contract_Storage c !! BigInt.String k) /\
    (forall l', l' <> l -> heap m' !! l' = heap m !! l') /\
    contracts m' = contracts m.
Proof.
  intros Hc Hl Hs Hg.
  rewrite (ExecuteOpcode_fuel_irrelevant fuel) by discriminate.
  cbn [ExecuteOpcode]. rewrite (sstore_run m l c s key v Hc Hl Hs Hg).
  eexists. eexists. split; [reflexivity|].
  cbn [heap set_heap contracts set_stack set_gas].
  split; [apply list_lookup_insert_eq, (lookup_lt_Some _ _ _ Hl)|].
  cbn [Contract_Storage]. split; [apply lookup_insert_eq|].
  split; [|split; [|reflexivity]].
  - intros k Hk. apply sstore_other_key. exact Hk.
  - intros l' Hne. apply list_lookup_insert_ne. congruence.
Qed.

(** ** Memory ranges *)

(** X24: when offset + size does not wrap, [load] succeeds exactly when the
    range lies within the buffer, and then returns exactly [size] bytes, the
    i-th being the byte at offset + i; otherwise it fails with
    MemoryOutOfBounds.  A range of size 0 at the very end of the buffer is
    within it. *)
Theorem X24_load_reads_exactly_the_range (m : list byte) (offset size : Z) :
  0 <= offset -> 0 <= size -> offset + size < 2 ^ 64 ->
  (offset + size <= len m ->
   exists data,
     Memory.load m offset size = Ok data /\ len data = size /\
     forall i, (i < Z.to_nat size)%nat ->
       data !! i = m !! (Z.to_nat offset + i)%nat) /\
  (len m < offset + size -> Memory.load m offset size = Err MemoryOutOfBounds).
Proof.
  intros Ho Hs Hsum. unfold Memory.load, Memory.load_out_of_bounds.
  rewrite uint64_small by lia. split.
  - intros Hin. destruct (Z.ltb_spec (len m) (offset + size)); [lia|].
    rewrite slice_ok by lia.
    replace (offset + size - offset) with size by lia.
    eexists. split; [reflexivity|]. split.
    + unfold len in *. rewrite length_take, length_drop. lia.
    + intros i Hi. rewrite lookup_take_lt by exact Hi. apply lookup_drop.
  - intros Hout. destruct (Z.ltb_spec (len m) (offset + size)); [reflexivity|lia].
Qed.

(** X25: a store within the limit never shrinks the buffer, makes it exactly
    as long as the longer of the old buffer and the end of the written
    range, and changes no byte outside the written range. *)
Theorem X25_store_keeps_the_other_bytes (m : list byte) (offset : Z)
    (value : list byte) :
  0 <= offset -> offset + len value <= MaxMemorySize ->
  exists m',
    Memory.store m offset value = (Ok tt, m') /\
    len m' = Z.max (len m) (offset + len value) /\
    forall i, (i < length m)%nat ->
      (i < Z.to_nat offset)%nat \/ (Z.to_nat offset + length value <= i)%nat ->
      m' !! i = m !! i.
Proof.
  intros Ho Hlim.
  rewrite MaxMemorySize_val in Hlim.
  rewrite store_no_wrap by lia.
  destruct (Z.ltb_spec MaxMemorySize (offset + len value)) as [Hbad|_];
    [rewrite MaxMemorySize_val in Hbad; lia|].
  eexists. split; [reflexivity|]. split.
  - unfold len. rewrite store_spec_length. unfold len. lia.
  - intros i Hi [Hlo|Hhi].
    + rewrite store_spec_before by exact Hlo.
      destruct (decide (i < length m)%nat); [reflexivity | lia].
    + apply store_spec_after. exact Hhi.
Qed.

(** ** Frames do not share their stack *)

Lemma caller_untouched_by_call (m0 : Machine) (exec : byte -> M unit)
    (steps : nat) :
  preserves (caller_untouched m0) (call exec steps 40).
Proof.
  apply (hoare_call (caller_untouched m0) (caller_untouched m0)
           (fun _ => True) 40); unfold caller_untouched.
  - intros m r m' H Hrun. unfold useGas in Hrun.
    destruct (gas (evm m) <? 40); injection Hrun as <- <-; exact H.
  - intros m r m' (Hs & Hpc & Hlg) Hrun. unfold evm_stack_pop, Stack.pop in Hrun.
    destruct (len (stack (evm m)) =? 0);
      [injection Hrun as <- <-; auto|].
    destruct (stack (evm m) !! _); injection Hrun as <- <-; cbn; [|auto].
    split; [|auto]. etransitivity; [apply prefix_take | exact Hs].
  - intros d m H. exact H.
  - intros callee m _. exact I.
  - intros m mc H _. exact H.
  - intros op m r m' _ _. exact I.
Qed.

(** X26: whatever a CALL ends in, it only takes values off the top of the
    caller's stack and leaves the caller's program counter and logs as they
    were: nothing the callee pushes, jumps to or logs reaches the caller's
    frame. *)
Theorem X26_call_leaves_the_caller_frame (fuel : nat) (m : Machine) :
  stack (evm (snd (ExecuteOpcode fuel xf1 m))) `prefix_of` stack (evm m) /\
  pc (evm (snd (ExecuteOpcode fuel xf1 m))) = pc (evm m) /\
  logs (evm (snd (ExecuteOpcode fuel xf1 m))) = logs (evm m).
Proof.
  assert (H0 : caller_untouched m m) by (repeat split; reflexivity).
  destruct fuel; cbn [ExecuteOpcode];
    exact (preserves_snd (caller_untouched m) _ m
             (caller_untouched_by_call m _ _) H0).
Qed.

(** ** Instances *)

Lemma X2_stack_never_exceeds_bound_witness :
  let m := frame_on 100 [x60; x07] (replicate 1024 (mkValue Uint256 1)) in
  len (stack (evm (snd (ExecuteOpcode 3 x60 m)))) <= 1024 /\
  len (stack (evm (snd (mainLoop 3 0 m)))) <= 1024.
Proof.
  intros m.
  assert (H : len (stack (evm m)) <= 1024) by closed_Z.
  exact (X2_stack_never_exceeds_bound 3 0 x60 m H).
Defined.

Lemma X3_gas_never_increases_witness :
  let m := frame_on 10 [x60; x07] [] in
  0 <= gas (evm (snd (ExecuteOpcode 3 x60 m))) <= 10 /\
  0 <= gas (evm (snd (mainLoop 3 0 m))) <= 10.
Proof.
  intros m.
  assert (H : 0 <= gas (evm m) < 2 ^ 64) by closed_Z.
  exact (X3_gas_never_increases 3 0 x60 m H).
Defined.

Lemma X4_opcode_charges_exactly_its_cost_witness :
  let m := frame_on 10 [x01] [] in
  fst (ExecuteOpcode 0 x01 m) = Err StackUnderflow /\
  gas (evm (snd (ExecuteOpcode 0 x01 m))) = 10 - 3.
Proof.
  intros m. split; [reflexivity|].
  assert (H1 : gas (evm m) < 2 ^ 64) by closed_Z.
  assert (H2 : 3 <= gas (evm m)) by closed_Z.
  exact (X4_opcode_charges_exactly_its_cost 0 x01 3 m H1 eq_refl H2).
Defined.

Lemma X6_contract_code_is_immutable_witness :
  let m := frame_on 30000 [x55] [mkValue Uint256 5; mkValue Uint256 42] in
  (exists c', heap (snd (ExecuteOpcode 1 x55 m)) !! 0%nat = Some c' /\
              Code c' = [x55] /\ Contract_Address c' = replicate 20 x00) /\
  (exists c', heap (snd (mainLoop 1 0 m)) !! 0%nat = Some c' /\
              Code c' = [x55] /\ Contract_Address c' = replicate 20 x00).
Proof.
  intros m.
  exact (X6_contract_code_is_immutable 1 0 x55 m 0
           (mkContract (replicate 20 x00) [x55] ∅) eq_refl).
Defined.

Lemma X7_registry_stays_sound_witness :
  let v := mkValue Uint256 in
  let m := register (mkContract (copy (replicate 20 x00) [xaa]) [x00] ∅)
             (frame_on 40000 [xf0] [v 0; v 0; v 0]) in
  registry_sound (contracts m) (snd (ExecuteOpcode 1 xf0 m)) /\
  registry_sound (contracts m) (snd (mainLoop 1 0 m)).
Proof.
  intros v m.
  assert (H : forall k l, contracts m !! k = Some l -> (l < length (heap m))%nat).
  { intros k l Hk.
    change (contracts m)
      with (<[copy (replicate 20 x00) [xaa] := 1%nat]> (∅ : gmap (list byte) nat))
      in Hk.
    change (length (heap m)) with 2%nat.
    apply lookup_insert_Some in Hk.
    destruct Hk as [[_ <-] | [_ Hk]]; [lia|].
    rewrite lookup_empty in Hk. discriminate Hk. }
  exact (X7_registry_stays_sound 1 0 xf0 m H).
Defined.

Lemma X8_arithmetic_opcodes_are_exact_witness :
  let v := mkValue Uint256 in
  stack (evm (snd (ExecuteOpcode 0 x03 (frame_on 10 [] [v 3; v 5])))) = [v (-2)] /\
  stack (evm (snd (ExecuteOpcode 0 x04 (frame_on 10 [] [v 7; v 0])))) = [v 0].
Proof.
  intros v.
  assert (Hlen : len (@nil Value) < 1024) by closed_Z.
  assert (Hg : 5 <= 10) by lia.
  destruct (X8_arithmetic_opcodes_are_exact 0 (frame_on 10 [] [v 3; v 5]) []
              (v 3) (v 5) eq_refl Hlen Hg) as (_ & _ & (_ & Hsub) & _).
  destruct (X8_arithmetic_opcodes_are_exact 0 (frame_on 10 [] [v 7; v 0]) []
              (v 7) (v 0) eq_refl Hlen Hg) as (_ & _ & _ & Hdiv & _).
  split; [exact Hsub | exact (proj2 (Hdiv eq_refl))].
Defined.

Lemma X9_comparison_opcodes_push_one_or_zero_witness :
  let v := mkValue Uint256 in
  let m := frame_on 10 [] [v 3; v 5] in
  stack (evm (snd (ExecuteOpcode 0 x10 m))) = [v 1] /\
  stack (evm (snd (ExecuteOpcode 0 x11 m))) = [v 0] /\
  stack (evm (snd (ExecuteOpcode 0 x14 m))) = [v 0].
Proof.
  intros v m.
  assert (Hlen : len (@nil Value) < 1024) by closed_Z.
  assert (Hg : 3 <= 10) by lia.
  destruct (X9_comparison_opcodes_push_one_or_zero 0 m [] (v 3) (v 5)
              eq_refl Hlen Hg) as ((_ & Hlt) & (_ & Hgt) & (_ & Heq) & _).
  split; [exact Hlt|]. split; [exact Hgt | exact Heq].
Defined.

Lemma X10_two_operand_opcode_on_one_value_witness :
  let m := frame_on 10 [] [mkValue Uint256 3] in
  ExecuteOpcode 0 x02 m = (Err StackUnderflow, set_stack [] (set_gas 5 m)).
Proof.
  intros m.
  assert (Hin : x02 ∈ [x01; x02; x03; x04; x10; x11; x14]) by set_solver.
  assert (Hg : 5 <= gas (evm m)) by closed_Z.
  exact (X10_two_operand_opcode_on_one_value 0 x02 5 m (mkValue Uint256 3)
           Hin eq_refl Hg eq_refl).
Defined.

Lemma X11_dup1_duplicates_the_top_witness :
  let v := mkValue Uint256 3 in
  ExecuteOpcode 0 x80 (frame_on 10 [] [v]) =
    (Ok tt, set_stack [v; v] (set_gas 7 (frame_on 10 [] [v]))) /\
  ExecuteOpcode 0 x80 (frame_on 10 [] []) =
    (Err DupUnderflow, set_gas 7 (frame_on 10 [] [])).
Proof.
  intros v.
  assert (Hg : 3 <= 10) by lia.
  assert (Hlen : len (@nil Value) < 1023) by closed_Z.
  destruct (X11_dup1_duplicates_the_top 0 (frame_on 10 [] [v]) [] v Hg)
    as (Hdup & _ & _).
  destruct (X11_dup1_duplicates_the_top 0 (frame_on 10 [] []) [] v Hg)
    as (_ & Hempty & _).
  split; [exact (Hdup eq_refl Hlen) | exact (Hempty eq_refl)].
Defined.

Lemma X12_swap1_is_an_involution_witness :
  let v := mkValue Uint256 in
  let m := frame_on 10 [] [v 1; v 2] in
  exists m1 m2,
    ExecuteOpcode 0 x90 m = (Ok tt, m1) /\ stack (evm m1) = [v 2; v 1] /\
    ExecuteOpcode 0 x90 m1 = (Ok tt, m2) /\ stack (evm m2) = [v 1; v 2].
Proof.
  intros v m.
  assert (Hg : 6 <= gas (evm m) < 2 ^ 64) by closed_Z.
  assert (Hlen : len (@nil Value) <= 1022) by closed_Z.
  destruct (X12_swap1_is_an_involution 0 m [] (v 1) (v 2) Hg Hlen) as [H _].
  exact (H eq_refl).
Defined.

Lemma X13_jump_lands_on_destination_witness :
  let code := [x60; x04; x56; x00; x00] in
  let m := set_pc 2 (frame_on 20 code [mkValue Uint256 4]) in
  exists m1,
    mainLoop 3 0 m = mainLoop 2 0 m1 /\ pc (evm m1) = 4 /\ stack (evm m1) = [].
Proof.
  intros code m.
  assert (Hpc : pc (evm m) < len code) by closed_Z.
  assert (Hg : 8 <= gas (evm m)) by closed_Z.
  destruct (X13_jump_lands_on_destination 2 0
              (mkContract (replicate 20 x00) code ∅) m x56 []
              (mkValue Uint256 4) eq_refl Hpc eq_refl
              (or_introl (conj eq_refl (conj eq_refl Hg))))
    as (m1 & H1 & H2 & H3 & _).
  exists m1. auto.
Defined.

Lemma X14_jumpi_with_zero_condition_falls_through_witness :
  let v := mkValue Uint256 in
  let code := [x60; x00; x60; x00; x57; x00] in
  let m := set_pc 4 (frame_on 20 code [v 0; v 0]) in
  exists m1,
    ExecuteOpcode 2 x57 m = (Ok tt, m1) /\ pc (evm m1) = 4 /\
    stack (evm m1) = [] /\
    mainLoop 3 0 m = mainLoop 2 0 (set_pc 5 m1).
Proof.
  intros v code m.
  assert (Hpc : 0 <= pc (evm m) < len code) by closed_Z.
  assert (Hcode : len code < 2 ^ 64) by closed_Z.
  assert (Hg : 10 <= gas (evm m)) by closed_Z.
  exact (X14_jumpi_with_zero_condition_falls_through 2 0
           (mkContract (replicate 20 x00) code ∅) m [] (v 0) (v 0)
           eq_refl Hpc Hcode eq_refl eq_refl eq_refl Hg).
Defined.

Lemma X15_push1_reads_its_immediate_witness :
  let m := frame_on 10 [x60; x2a] [] in
  ExecuteOpcode 0 x60 m =
    (Ok tt, set_stack [mkValue Uint256 42] (set_pc 1 (set_gas 7 m))) /\
  ExecuteOpcode 0 x60 (set_pc 1 m) =
    (Err PushOutOfBounds, set_gas 7 (set_pc 1 m)).
Proof.
  intros m.
  set (c := mkContract (replicate 20 x00) [x60; x2a] ∅).
  assert (Hcode : len (Code c) < 2 ^ 63) by closed_Z.
  assert (Hg : 3 <= 10) by lia.
  assert (Hlen : len (@nil Value) < 1024) by closed_Z.
  assert (Hpc0 : 0 <= pc (evm m) < len (Code c)) by closed_Z.
  assert (Hpc1 : 0 <= pc (evm (set_pc 1 m)) < len (Code c)) by closed_Z.
  destruct (X15_push1_reads_its_immediate 0 0 c m eq_refl eq_refl Hpc0 Hcode
              Hg Hlen) as [Hread _].
  destruct (X15_push1_reads_its_immediate 0 0 c (set_pc 1 m) eq_refl eq_refl
              Hpc1 Hcode Hg Hlen) as [_ Hlast].
  split; [exact (proj1 (Hread x2a eq_refl)) | exact (Hlast eq_refl)].
Defined.

Lemma X16_uncosted_bytes_change_nothing_witness :
  let m := frame_on 10 [xff] [] in
  ExecuteOpcode 0 xff m = (Err (UnknownOpcode xff), m) /\
  ExecuteOpcode 0 x00 m = (Err STOP, m).
Proof.
  intros m. split.
  - exact (X16_uncosted_bytes_change_nothing 0 xff m eq_refl).
  - exact (X16_uncosted_bytes_change_nothing 0 x00 m eq_refl).
Defined.

Lemma X17_create_registers_a_resolvable_contract_witness :
  let v := mkValue Uint256 in
  let m := frame_on 40000 [xf0] [v 0; v 0; v 0] in
  exists m' pushed,
    ExecuteOpcode 0 xf0 m = (Ok tt, m') /\
    stack (evm m') = [pushed] /\
    contracts m'
      !! copy (replicate 20 x00) (BigInt.Bytes (Value_Value pushed))
      = Some 1%nat /\
    heap m' !! 1%nat = Some (mkContract (createAddress [] 0) [] ∅).
Proof.
  intros v m.
  assert (Hlen : len (@nil Value) < 1024) by closed_Z.
  assert (Hg : 32000 <= gas (evm m)) by closed_Z.
  destruct (X17_create_registers_a_resolvable_contract 0 m [] (v 0) (v 0) (v 0)
              [] 0 (mkContract (replicate 20 x00) [xf0] ∅)
              eq_refl Hlen Hg eq_refl eq_refl eq_refl)
    as (m' & pushed & Hrun & Hs & _ & Hheap & _ & Hres).
  exists m', pushed. repeat split; try assumption.
  rewrite Hheap. reflexivity.
Defined.

Lemma X18_call_to_unregistered_address_witness :
  let v := mkValue Uint256 in
  let m := frame_on 100 [xf1] [v 100; v 170; v 0; v 0; v 0; v 0; v 0] in
  ExecuteOpcode 3 xf1 m = (Err ContractNotFound, set_stack [] (set_gas 60 m)).
Proof.
  intros v m.
  assert (Hg : 40 <= gas (evm m)) by closed_Z.
  exact (X18_call_to_unregistered_address 3 m [] (v 100) (v 170) (v 0) (v 0)
           (v 0) (v 0) (v 0) [] eq_refl Hg eq_refl eq_refl).
Defined.

Lemma X19_successful_call_returns_no_data_witness :
  let v := mkValue Uint256 in
  let m := set_returnData [x01; x02]
             (register (mkContract (copy (replicate 20 x00) [xaa]) [] ∅)
                (frame_on 100 [xf1] [v 9; v 5; v 170; v 0; v 0; v 0; v 0; v 0])) in
  fst (ExecuteOpcode 3 xf1 m) = Ok tt /\
  returnData (evm (snd (ExecuteOpcode 3 xf1 m))) = [] /\
  stack (evm (snd (ExecuteOpcode 3 xf1 m))) = [v 9].
Proof.
  intros v m.
  assert (Hrun : ExecuteOpcode 3 xf1 m = (Ok tt, snd (ExecuteOpcode 3 xf1 m)))
    by (vm_compute; reflexivity).
  destruct (X19_successful_call_returns_no_data 3 m _ Hrun) as (Hret & _).
  split; [vm_compute; reflexivity|]. split; [exact Hret|].
  vm_compute. reflexivity.
Defined.

Lemma X21_return_records_the_memory_range_witness :
  let v := mkValue Uint256 in
  let m := frame_on 10 [xf3] [v 0; v 0] in
  ExecuteOpcode 0 xf3 m = (Ok tt, set_returnData [] (set_stack [] m)) /\
  ExecuteOpcode 0 xfd m =
    (Err RevertWithData, set_returnData [] (set_stack [] m)) /\
  ExecuteOpcode 0 xf3 (frame_on 10 [xf3] [v 0; v 1]) =
    (Err MemoryOutOfBounds, set_stack [] m).
Proof.
  intros v m.
  assert (H1 : gas (evm m) < 2 ^ 64) by closed_Z.
  assert (H0 : 0 <= gas (evm m)) by closed_Z.
  destruct (X21_return_records_the_memory_range 0 m [] (v 0) (v 0) eq_refl H1 H0)
    as [Hok _].
  destruct (X21_return_records_the_memory_range 0 (frame_on 10 [xf3] [v 0; v 1])
              [] (v 0) (v 1) eq_refl H1 H0) as [_ Hbad].
  destruct (Hok [] eq_refl) as [Hret Hrev].
  split; [exact Hret|]. split; [exact Hrev | exact (proj1 (Hbad eq_refl))].
Defined.

Lemma X22_log0_appends_one_entry_witness :
  let v := mkValue Uint256 in
  let m := frame_on 400 [xa0] [v 0; v 0] in
  ExecuteOpcode 0 xa0 m =
    (Ok tt,
     set_logs [mkLog (replicate 20 x00) [] []] (set_stack [] (set_gas 25 m))).
Proof.
  intros v m.
  assert (Hg : 375 <= gas (evm m)) by closed_Z.
  exact (X22_log0_appends_one_entry 0 m [] (v 0) (v 0) [] 0
           (mkContract (replicate 20 x00) [xa0] ∅)
           eq_refl Hg eq_refl eq_refl eq_refl).
Defined.

Lemma X23_sstore_writes_one_slot_witness :
  let m := frame_on 30000 [x55] [mkValue Address 5; mkValue Bytes32 42] in
  exists m' c',
    ExecuteOpcode 0 x55 m = (Ok tt, m') /\
    heap m' !! 0%nat = Some c' /\
    Contract_Storage c' !! "5"%string = Some (mkValue Bytes32 42) /\
    Contract_Storage c' !! "-5"%string = None.
Proof.
  intros m.
  assert (Hg : 20000 <= gas (evm m)) by closed_Z.
  destruct (X23_sstore_writes_one_slot 0 m 0
              (mkContract (replicate 20 x00) [x55] ∅) []
              (mkValue Address 5) (mkValue Bytes32 42)
              eq_refl eq_refl eq_refl Hg)
    as (m' & c' & Hrun & Hc' & Hkey & Hother & _).
  exists m', c'. repeat split; try assumption.
  assert (Hne : -5 <> 5) by lia.
  exact (Hother (-5) Hne).
Defined.

Lemma X24_load_reads_exactly_the_range_witness :
  Memory.load [x01; x02; x03] 1 2 = Ok [x02; x03] /\
  Memory.load [x01; x02; x03] 3 0 = Ok [] /\
  Memory.load [x01; x02; x03] 2 2 = Err MemoryOutOfBounds.
Proof.
  assert (H0 : 0 <= 0) by lia. assert (H1 : 0 <= 1) by lia.
  assert (H2 : 0 <= 2) by lia. assert (H3 : 0 <= 3) by lia.
  destruct (X24_load_reads_exactly_the_range [x01; x02; x03] 2 2 H2 H2
              ltac:(closed_Z)) as [_ Hout].
  split; [reflexivity|]. split; [reflexivity|].
  apply Hout. closed_Z.
Defined.

Lemma X25_store_keeps_the_other_bytes_witness :
  exists m',
    Memory.store [x01; x02] 3 [x09] = (Ok tt, m') /\
    len m' = 4 /\ m' !! 0%nat = Some x01 /\ m' !! 1%nat = Some x02.
Proof.
  assert (H0 : 0 <= 3) by lia.
  assert (Hlim : 3 + len [x09] <= MaxMemorySize) by closed_Z.
  destruct (X25_store_keeps_the_other_bytes [x01; x02] 3 [x09] H0 Hlim)
    as (m' & Hrun & Hlen & Hkeep).
  exists m'. split; [exact Hrun|]. split; [exact Hlen|].
  split; apply Hkeep; cbn; lia.
Defined.

(** ** The nested loop *)





